(** * container-use-web: the backend's command wrapper, HTTP routes and
      WebSocket sessions, embedded from

      - [backend/app/core/container_use.py]
      - [backend/app/api/routes/environments.py]
      - [backend/app/models.py], [backend/app/core/config.py]

    Python [str] values are lists of code points, [bytes] values are lists
    of [Byte.byte].  Awaited library calls (process spawn, pipe reads,
    socket receives) are answered by an explicit environment; code that can
    raise lives in a small exception monad. *)

From Stdlib Require Import List NArith ZArith Bool Lia Ascii String.
From Stdlib.Strings Require Import Byte.
Import ListNotations.

Set Implicit Arguments.

(** ** Python values *)

Module Py.

Definition str := list N.
Definition bytes := list byte.

(** An ASCII literal as a [str]. *)
Definition lit (s : string) : str := map N_of_ascii (list_ascii_of_string s).

Definition str_eqb (a b : str) : bool :=
  if list_eq_dec N.eq_dec a b then true else false.

(** [Py_UNICODE_ISSPACE]: the whitespace test behind [str.strip],
    [str.isspace] and the [\s] class of [re] on [str] patterns. *)
Definition isspace (c : N) : bool :=
  ((9 <=? c) && (c <=? 13) || (28 <=? c) && (c <=? 32)
   || (c =? 133) || (c =? 160) || (c =? 5760)
   || (8192 <=? c) && (c <=? 8202)
   || (c =? 8232) || (c =? 8233) || (c =? 8239) || (c =? 8287)
   || (c =? 12288))%N.

Fixpoint lstrip (s : str) : str :=
  match s with
  | c :: s' => if isspace c then lstrip s' else s
  | [] => []
  end.

Definition rstrip (s : str) : str := rev (lstrip (rev s)).

(** [s.strip()] *)
Definition strip (s : str) : str := rstrip (lstrip s).

(** [s.startswith(p)] *)
Fixpoint startswith (s p : str) : bool :=
  match p, s with
  | [], _ => true
  | a :: p', b :: s' => (a =? b)%N && startswith s' p'
  | _ :: _, [] => false
  end.

(** [needle in hay] *)
Fixpoint contains (hay needle : str) : bool :=
  startswith hay needle
  || match hay with
     | [] => false
     | _ :: hay' => contains hay' needle
     end.

(** [s.lower()] on the ASCII letters.  Python also lowers cased letters
    outside ASCII; their images stay outside ASCII except for U+212A
    (to [k]) and U+0130 (to [i] followed by U+0307), and neither can take
    part in an occurrence of the two phrases the routes look for. *)
Definition lower_char (c : N) : N :=
  if ((65 <=? c) && (c <=? 90))%N then (c + 32)%N else c.

Definition lower (s : str) : str := map lower_char s.

(** [sep.join(parts)] *)
Fixpoint join (sep : str) (parts : list str) : str :=
  match parts with
  | [] => []
  | [p] => p
  | p :: ps => p ++ sep ++ join sep ps
  end.

(** [s.split("\n")]: [cur] is the piece being read, reversed. *)
Fixpoint split_on (sep : N) (cur : str) (s : str) : list str :=
  match s with
  | [] => [rev cur]
  | c :: s' => if (c =? sep)%N then rev cur :: split_on sep [] s'
               else split_on sep (c :: cur) s'
  end.

Definition split_lines (s : str) : list str := split_on 10%N [] s.

(** [re.split(r"\s{2,}", s)].  The pattern is greedy and needs two
    characters, so the separators are exactly the maximal whitespace runs
    of length two or more; a lone whitespace character stays in its piece.
    [cur] is the piece being read and [run] the whitespace run just
    passed, both reversed. *)
Fixpoint re_split_go (cur run s : str) : list str :=
  match s with
  | [] => if (2 <=? List.length run)%nat then [rev cur; []] else [rev (run ++ cur)]
  | c :: s' =>
      if isspace c then re_split_go cur (c :: run) s'
      else if (2 <=? List.length run)%nat then rev cur :: re_split_go [c] [] s'
      else re_split_go (c :: run ++ cur) [] s'
  end.

Definition re_split_ws2 (s : str) : list str := re_split_go [] [] s.

(** *** UTF-8 *)

Definition between (lo hi b : N) : bool := ((lo <=? b) && (b <=? hi))%N.

Definition is_cont (b : N) : bool := between 128 191 b.

(** Second-byte range for a three-byte lead: no overlong forms ([E0]) and
    no surrogates ([ED]). *)
Definition second3 (b0 b1 : N) : bool :=
  if (b0 =? 224)%N then between 160 191 b1
  else if (b0 =? 237)%N then between 128 159 b1
  else is_cont b1.

(** Second-byte range for a four-byte lead: no overlong forms ([F0]) and
    nothing above U+10FFFF ([F4]). *)
Definition second4 (b0 b1 : N) : bool :=
  if (b0 =? 240)%N then between 144 191 b1
  else if (b0 =? 244)%N then between 128 143 b1
  else is_cont b1.

(** The strict UTF-8 decoder: [None] where [bytes.decode("utf-8")] raises
    [UnicodeDecodeError]. *)
Fixpoint utf8_decode (bs : list N) : option str :=
  match bs with
  | [] => Some []
  | b0 :: r0 =>
      if (b0 <? 128)%N then option_map (cons b0) (utf8_decode r0)
      else if between 194 223 b0 then
        match r0 with
        | b1 :: r1 =>
            if is_cont b1
            then option_map (cons ((b0 - 192) * 64 + (b1 - 128))%N)
                            (utf8_decode r1)
            else None
        | _ => None
        end
      else if between 224 239 b0 then
        match r0 with
        | b1 :: b2 :: r2 =>
            if second3 b0 b1 && is_cont b2
            then option_map
                   (cons ((b0 - 224) * 4096 + (b1 - 128) * 64 + (b2 - 128))%N)
                   (utf8_decode r2)
            else None
        | _ => None
        end
      else if between 240 244 b0 then
        match r0 with
        | b1 :: b2 :: b3 :: r3 =>
            if second4 b0 b1 && is_cont b2 && is_cont b3
            then option_map
                   (cons ((b0 - 240) * 262144 + (b1 - 128) * 4096
                          + (b2 - 128) * 64 + (b3 - 128))%N)
                   (utf8_decode r3)
            else None
        | _ => None
        end
      else None
  end.

(** [b.decode("utf-8")] *)
Definition decode (b : bytes) : option str := utf8_decode (map Byte.to_N b).

Definition byte_of_N (n : N) : byte :=
  match Byte.of_N n with Some b => b | None => x00 end.

(** One code point in UTF-8; [None] for a surrogate or a value that is not
    a code point, where [str.encode("utf-8")] raises. *)
Definition utf8_encode_char (c : N) : option (list N) :=
  if (c <? 128)%N then Some [c]
  else if (c <? 2048)%N then Some [192 + c / 64; 128 + c mod 64]%N
  else if (c <? 65536)%N then
    if between 55296 57343 c then None
    else Some [224 + c / 4096; 128 + (c / 64) mod 64; 128 + c mod 64]%N
  else if (c <? 1114112)%N then
    Some [240 + c / 262144; 128 + (c / 4096) mod 64;
          128 + (c / 64) mod 64; 128 + c mod 64]%N
  else None.

Fixpoint utf8_encode (s : str) : option (list N) :=
  match s with
  | [] => Some []
  | c :: s' =>
      match utf8_encode_char c, utf8_encode s' with
      | Some bs, Some rest => Some (bs ++ rest)
      | _, _ => None
      end
  end.

(** [s.encode("utf-8")] *)
Definition encode (s : str) : option bytes :=
  option_map (map byte_of_N) (utf8_encode s).

(** *** Exceptions *)

(** An instance of [Exception]; [exn_str] is what [str(e)] returns. *)
Record exn := Exception { exn_str : str }.

(** A computation that returns or raises. *)
Inductive result (E A : Type) :=
| Returns (a : A)
| Raises (e : E).
Arguments Returns {E A} a.
Arguments Raises {E A} e.

Definition bind {E A B} (m : result E A) (k : A -> result E B) : result E B :=
  match m with
  | Returns a => k a
  | Raises e => Raises e
  end.

(** [try: body  except Exception as e: handler(e)] *)
Definition try_except {E F A} (body : result E A) (handler : E -> result F A)
  : result F A :=
  match body with
  | Returns a => Returns a
  | Raises e => handler e
  end.

End Py.

Import Py.

Declare Scope py_scope.
Delimit Scope py_scope with py.
Notation "x <- m ;; k" := (bind m (fun x => k))
  (at level 61, m at next level, right associativity) : py_scope.
Notation "' p <- m ;; k" := (bind m (fun x => match x with p => k end))
  (at level 61, p pattern, m at next level, right associativity) : py_scope.

Local Open Scope py_scope.

(** ** [app/models.py] *)

Record Environment := {
  id : str;
  title : str;
  created : str;
  updated : str
}.

Record ActionRequest := {
  req_action : str;
  req_environment_id : str
}.

Record ActionResponse := {
  success : bool;
  action : str;
  environment_id : str;
  output : str
}.

(** ** [app/core/config.py] and the operating system *)

(** A spawned child as [run_container_use_command] sees it: what
    [communicate()] gives, and [returncode] once it has. *)
Record Child := {
  communicate : result exn (bytes * bytes);
  child_returncode : option Z
}.

(** The settings object: environment variables and the two fields the
    code reads. *)
Record Settings := {
  getenv : str -> option str;
  CONTAINER_USE_BIN : str;
  CONTAINER_USE_WORK_DIR : str
}.

Definition get_container_use_bin (st : Settings) : str :=
  match getenv st (lit "CONTAINER_USE_BIN") with
  | Some v => v
  | None => CONTAINER_USE_BIN st
  end.

Definition get_container_use_work_dir (st : Settings) : str :=
  match getenv st (lit "CONTAINER_USE_WORK_DIR") with
  | Some v => v
  | None => CONTAINER_USE_WORK_DIR st
  end.

(** What [run_container_use_command] asks of its surroundings: the
    settings, the builtin [print] on the server's standard output (it
    returns [None], or raises what writing the line raises, such as
    [UnicodeEncodeError] for a character the stream cannot encode),
    [asyncio.create_subprocess_exec] on a command line and working
    directory, and the [UnicodeDecodeError] raised for a byte string that
    is not UTF-8. *)
Record Runtime := {
  settings : Settings;
  print : str -> result exn unit;
  create_subprocess_exec : list str -> str -> result exn Child;
  decode_error : bytes -> exn
}.

(** ** [app/core/container_use.py] *)

Module ContainerUse.

(** [b.decode("utf-8")] as a computation that may raise. *)
Definition bytes_decode (rt : Runtime) (b : bytes) : result exn str :=
  match decode b with
  | Some s => Returns s
  | None => Raises (decode_error rt b)
  end.

(** [b.decode("utf-8") if b else ""] *)
Definition decode_or_empty (rt : Runtime) (b : bytes) : result exn str :=
  match b with
  | [] => Returns []
  | _ :: _ => bytes_decode rt b
  end.

(** [process.returncode or 0] *)
Definition returncode_or_0 (rc : option Z) : Z :=
  match rc with
  | None => 0%Z
  | Some c => if (c =? 0)%Z then 0%Z else c
  end.

Definition run_container_use_command
    (rt : Runtime) (args : list str) (cwd : option str)
  : result exn (str * str * Z) :=
  let cwd := match cwd with
             | None => get_container_use_work_dir (settings rt)
             | Some d => d
             end in
  let cmd := get_container_use_bin (settings rt) :: args in
  _ <- print rt (lit "Running command: " ++ join (lit " ") cmd
                 ++ lit " in directory: " ++ cwd) ;;
  try_except
    (process <- create_subprocess_exec rt cmd cwd ;;
     '(stdout, stderr) <- communicate process ;;
     out <- decode_or_empty rt stdout ;;
     err <- decode_or_empty rt stderr ;;
     Returns (out, err, returncode_or_0 (child_returncode process)))
    (fun e => Returns ([], exn_str e, 1%Z)).

(** The header search: the index after the first line that, stripped,
    starts with [ID]; 0 when there is none. *)
Fixpoint find_start_index (i : nat) (lines : list str) : nat :=
  match lines with
  | [] => 0
  | line :: rest =>
      if startswith (strip line) (lit "ID") then S i
      else find_start_index (S i) rest
  end.

(** The body of the second loop for one line; [environments.append]. *)
Definition parse_line (environments : list Environment) (raw : str)
  : list Environment :=
  let line := strip raw in
  match line with
  | [] => environments
  | _ :: _ =>
      let fields := re_split_ws2 line in
      if (4 <=? List.length fields)%nat then
        environments ++
          [ {| id := strip (nth 0 fields []);
               title := strip (nth 1 fields []);
               created := strip (nth 2 fields []);
               updated := strip (nth 3 fields []) |} ]
      else environments
  end.

Definition parse_environment_list (output : str) : list Environment :=
  let lines := split_lines (strip output) in
  let start_index := find_start_index 0 lines in
  fold_left parse_line (skipn start_index lines) [].

End ContainerUse.

Import ContainerUse.

(** ** [app/api/routes/environments.py]: the HTTP routes *)

Module Routes.

(** [HTTPException(status_code, detail={"error": ..., "detail": ...})];
    the inner [detail] key is absent in the 400 raised for a missing
    identifier. *)
Record HTTPException := {
  status_code : Z;
  detail_error : str;
  detail_detail : option str
}.

(** What can leave a route: an [HTTPException], or any other exception,
    which the framework answers with status 500. *)
Inductive route_exn :=
| Http (h : HTTPException)
| Unhandled (e : exn).

Definition route (A : Type) := result route_exn A.

Definition raise_http {A} (status : Z) (error : str) (detail : option str)
  : route A :=
  Raises (Http {| status_code := status;
                  detail_error := error;
                  detail_detail := detail |}).

(** [await run_container_use_command(args)] from inside a route. *)
Definition await_command (rt : Runtime) (args : list str)
  : route (str * str * Z) :=
  try_except (run_container_use_command rt args None)
             (fun e => Raises (Unhandled e)).

(** The status line the client sees. *)
Definition status_of {A} (r : route A) : Z :=
  match r with
  | Returns _ => 200%Z
  | Raises (Http h) => status_code h
  | Raises (Unhandled _) => 500%Z
  end.

(** [stderr or stdout] *)
Definition error_output (stderr stdout : str) : str :=
  match stderr with
  | [] => stdout
  | _ :: _ => stderr
  end.

(** ["not found" in error_output.lower()
     or "does not exist" in error_output.lower()] *)
Definition is_not_found (error_output : str) : bool :=
  contains (lower error_output) (lit "not found")
  || contains (lower error_output) (lit "does not exist").

(** The shared tail of the three routes for a non-zero return code;
    [failure] is the route's own 500 text. *)
Definition command_failed {A} (environment_id failure stderr stdout : str)
  : route A :=
  let error_output := error_output stderr stdout in
  if is_not_found error_output then
    raise_http 404
      (lit "Environment '" ++ environment_id ++ lit "' not found")
      (Some error_output)
  else
    raise_http 500 failure (Some error_output).

Definition list_environments (rt : Runtime) : route (list Environment) :=
  '(stdout, stderr, return_code) <- await_command rt [lit "list"] ;;
  if negb (return_code =? 0)%Z then
    raise_http 500 (lit "Failed to run 'container-use list'")
      (Some (match stderr with [] => lit "Unknown error" | _ :: _ => stderr end))
  else
    Returns (parse_environment_list stdout).

Definition get_environment_logs (rt : Runtime) (environment_id : str)
  : route str :=
  match environment_id with
  | [] => raise_http 400 (lit "Environment ID is required") None
  | _ :: _ =>
      '(stdout, stderr, return_code) <-
         await_command rt [lit "log"; environment_id] ;;
      if negb (return_code =? 0)%Z then
        command_failed environment_id
          (lit "Failed to get logs for environment '" ++ environment_id
           ++ lit "'")
          stderr stdout
      else Returns stdout
  end.

Definition get_environment_diff (rt : Runtime) (environment_id : str)
  : route str :=
  match environment_id with
  | [] => raise_http 400 (lit "Environment ID is required") None
  | _ :: _ =>
      '(stdout, stderr, return_code) <-
         await_command rt [lit "diff"; environment_id] ;;
      if negb (return_code =? 0)%Z then
        command_failed environment_id
          (lit "Failed to get diff for environment '" ++ environment_id
           ++ lit "'")
          stderr stdout
      else Returns stdout
  end.

(** The literal [{"apply", "checkout", "delete", "merge"}], in the order
    it is written; Python leaves a set's iteration order open, which only
    shows in the text of the 400 below. *)
Definition valid_actions : list str :=
  [lit "apply"; lit "checkout"; lit "delete"; lit "merge"].

Definition is_empty (s : str) : bool :=
  match s with [] => true | _ :: _ => false end.

Definition execute_action (rt : Runtime) (request : ActionRequest)
  : route ActionResponse :=
  if is_empty (req_action request) || is_empty (req_environment_id request)
  then raise_http 400 (lit "Action and environment_id are required") None
  else if negb (existsb (str_eqb (req_action request)) valid_actions)
  then raise_http 400 (lit "Invalid action")
         (Some (lit "Action must be one of: "
                ++ join (lit ", ") valid_actions))
  else
    '(stdout, stderr, return_code) <-
       await_command rt [req_action request; req_environment_id request] ;;
    if negb (return_code =? 0)%Z then
      command_failed (req_environment_id request)
        (lit "Failed to execute '" ++ req_action request
         ++ lit "' on environment '" ++ req_environment_id request
         ++ lit "'")
        stderr stdout
    else
      Returns {| success := true;
                 action := req_action request;
                 environment_id := req_environment_id request;
                 output := stdout |}.

End Routes.

Import Routes.

(** ** [app/api/routes/environments.py]: what the two WebSocket handlers
       share *)

Module Stream.

(** A JSON object the server sends. *)
Inductive Message :=
| Tagged (type data : str)          (* {"type": type, "data": data} *)
| ErrorOnly (error : str).          (* {"error": error} *)

Inductive task_id := Stdout | Stderr | Input.

Definition task_eqb (a b : task_id) : bool :=
  match a, b with
  | Stdout, Stdout | Stderr, Stderr | Input, Input => true
  | _, _ => false
  end.

Inductive task_status := Running | Finished | Cancelled.

(** [task.done()] *)
Definition done (st : task_status) : bool :=
  match st with Running => false | _ => true end.

(** What a handler does to the outside, in the order it does it. *)
Inductive Action :=
| Accept
| Spawn (cmd : list str) (cwd : str) (with_stdin : bool)
| SendJson (m : Message)
| CloseSocket
| WriteStdin (b : bytes)
| CloseStdin
| Terminate
| WaitFor (timeout_ms : N)
| Kill
| Wait
| Cancel (t : task_id)
| Await (t : task_id).

(** The child process.  [returncode] is the handle's field.  The rest is
    the operating system's side: [on_sigterm] says after how many
    milliseconds and with what code the program exits once it gets SIGTERM
    ([None]: it ignores the signal), [on_sigkill] how long the kernel takes
    to end it after SIGKILL, [exiting] the exit already under way, and
    [stdin_broken] whether a write to its input pipe fails. *)
Record Process := {
  returncode : option Z;
  exiting : option (N * Z);
  on_sigterm : option (N * Z);
  on_sigkill : N;
  has_stdin : bool;
  stdin_broken : bool
}.

Definition set_exiting (e : option (N * Z)) (p : Process) : Process :=
  {| returncode := returncode p; exiting := e;
     on_sigterm := on_sigterm p; on_sigkill := on_sigkill p;
     has_stdin := has_stdin p; stdin_broken := stdin_broken p |}.

Definition reaped (code : Z) (p : Process) : Process :=
  {| returncode := Some code; exiting := None;
     on_sigterm := on_sigterm p; on_sigkill := on_sigkill p;
     has_stdin := has_stdin p; stdin_broken := true |}.

(** The connection side of a session: the process, a clock in
    milliseconds, the actions so far with their times, and whether the
    peer has been seen to disconnect. *)
Record Conn := {
  proc : Process;
  clock : N;
  log : list (N * Action);
  peer_gone : bool
}.

Definition with_proc (p : Process) (c : Conn) : Conn :=
  {| proc := p; clock := clock c; log := log c; peer_gone := peer_gone c |}.

Definition advance (d : N) (c : Conn) : Conn :=
  {| proc := proc c; clock := (clock c + d)%N; log := log c;
     peer_gone := peer_gone c |}.

Definition emit (a : Action) (c : Conn) : Conn :=
  {| proc := proc c; clock := clock c; log := log c ++ [(clock c, a)];
     peer_gone := peer_gone c |}.

Definition mark_peer_gone (c : Conn) : Conn :=
  {| proc := proc c; clock := clock c; log := log c; peer_gone := true |}.

(** [process.terminate()] *)
Definition terminate (c : Conn) : Conn :=
  let c := emit Terminate c in
  match exiting (proc c) with
  | Some _ => c
  | None => with_proc (set_exiting (on_sigterm (proc c)) (proc c)) c
  end.

(** [process.kill()]: SIGKILL ends the process after [on_sigkill] with
    code -9, unless it was about to exit sooner. *)
Definition kill (c : Conn) : Conn :=
  let c := emit Kill c in
  let p := proc c in
  match exiting p with
  | Some (d, _) =>
      if (d <=? on_sigkill p)%N then c
      else with_proc (set_exiting (Some (on_sigkill p, (-9)%Z)) p) c
  | None => with_proc (set_exiting (Some (on_sigkill p, (-9)%Z)) p) c
  end.

(** [await asyncio.wait_for(process.wait(), timeout)]: [true] when the
    process exited in time, [false] for [asyncio.TimeoutError]. *)
Definition wait_for_exit (timeout : N) (c : Conn) : Conn * bool :=
  let c := emit (WaitFor timeout) c in
  match returncode (proc c) with
  | Some _ => (c, true)
  | None =>
      match exiting (proc c) with
      | Some (d, code) =>
          if (d <? timeout)%N
          then (with_proc (reaped code (proc c)) (advance d c), true)
          else (with_proc (set_exiting (Some (d - timeout, code)%N) (proc c))
                          (advance timeout c), false)
      | None => (advance timeout c, false)
      end
  end.

(** [await process.wait()]: [false] when nothing will ever end the
    process, so that the await never completes. *)
Definition wait (c : Conn) : Conn * bool :=
  let c := emit Wait c in
  match returncode (proc c) with
  | Some _ => (c, true)
  | None =>
      match exiting (proc c) with
      | Some (d, code) => (with_proc (reaped code (proc c)) (advance d c), true)
      | None => (c, false)
      end
  end.

(** [await websocket.send_json(m)]: [false] when it raises, which it does
    once the peer is gone. *)
Definition send_json (m : Message) (c : Conn) : Conn * bool :=
  if peer_gone c then (c, false) else (emit (SendJson m) c, true).

(** The answer to one read of an output pipe: the bytes ([[]] at end of
    file), or an exception. *)
Inductive read_result :=
| ReadBytes (data : bytes)
| ReadRaises (e : exn).

(** The answer to one receive on the socket. *)
Inductive recv_result (P : Type) :=
| Received (payload : P)
| Disconnected                     (* WebSocketDisconnect *)
| RecvRaises (e : exn).            (* any other exception *)
Arguments Received {P} payload.
Arguments Disconnected {P}.
Arguments RecvRaises {P} e.

(** One turn of a reader's [while True] body on the bytes it was given;
    [true] when the loop goes round again, [false] for [break]. *)
Definition reader_iteration (tag : str) (answer : read_result) (c : Conn)
  : Conn * bool :=
  match answer with
  | ReadRaises _ => (c, false)
  | ReadBytes [] => (c, false)
  | ReadBytes data =>
      match decode data with
      | None => (c, false)
      | Some text => send_json (Tagged tag text) c
      end
  end.

(** Where the handler's own coroutine is: in its waiting loop, blocked
    for good in [process.wait()], or returned. *)
Inductive main_pc := Serving | Stuck | Returned.

Record Session (P : Type) := {
  conn : Conn;
  stdout_reads : list read_result;
  stderr_reads : list read_result;
  inbound : list (recv_result P);
  tasks : list (task_id * task_status);
  main : main_pc
}.

Section Updates.
Context {P : Type}.

Definition with_conn (c : Conn) (s : Session P) : Session P :=
  {| conn := c; stdout_reads := stdout_reads s;
     stderr_reads := stderr_reads s; inbound := inbound s;
     tasks := tasks s; main := main s |}.

Definition with_reads (t : task_id) (q : list read_result) (s : Session P)
  : Session P :=
  {| conn := conn s;
     stdout_reads := if task_eqb t Stdout then q else stdout_reads s;
     stderr_reads := if task_eqb t Stderr then q else stderr_reads s;
     inbound := inbound s; tasks := tasks s; main := main s |}.

Definition with_inbound (q : list (recv_result P)) (s : Session P)
  : Session P :=
  {| conn := conn s; stdout_reads := stdout_reads s;
     stderr_reads := stderr_reads s; inbound := q;
     tasks := tasks s; main := main s |}.

Definition with_tasks (ts : list (task_id * task_status)) (s : Session P)
  : Session P :=
  {| conn := conn s; stdout_reads := stdout_reads s;
     stderr_reads := stderr_reads s; inbound := inbound s;
     tasks := ts; main := main s |}.

Definition with_main (m : main_pc) (s : Session P) : Session P :=
  {| conn := conn s; stdout_reads := stdout_reads s;
     stderr_reads := stderr_reads s; inbound := inbound s;
     tasks := tasks s; main := m |}.

Definition status_in (ts : list (task_id * task_status)) (t : task_id)
  : option task_status :=
  option_map snd (find (fun e => task_eqb (fst e) t) ts).

Definition status (s : Session P) (t : task_id) : option task_status :=
  status_in (tasks s) t.

Definition set_status (t : task_id) (st : task_status)
    (ts : list (task_id * task_status)) : list (task_id * task_status) :=
  map (fun e => if task_eqb (fst e) t then (fst e, st) else e) ts.

Definition reads_of (t : task_id) (s : Session P) : list read_result :=
  match t with
  | Stdout => stdout_reads s
  | Stderr => stderr_reads s
  | Input => []
  end.

(** A reader task gets the processor: it takes the next answer of its
    pipe, if one is there, and runs one turn of its loop. *)
Definition step_reader (t : task_id) (tag : str) (s : Session P)
  : Session P :=
  match status s t with
  | Some Running =>
      match reads_of t s with
      | [] => s
      | answer :: q =>
          let '(c, again) := reader_iteration tag answer (conn s) in
          let s := with_conn c (with_reads t q s) in
          if again then s
          else with_tasks (set_status t Finished (tasks s)) s
      end
  | _ => s
  end.

(** [task.cancel()] and then [await task], swallowing
    [CancelledError]. *)
Definition cancel_and_await (s : Session P) (t : task_id) : Session P :=
  let s := with_conn (emit (Cancel t) (conn s)) s in
  let s := match status s t with
           | Some Running =>
               with_tasks (set_status t Cancelled (tasks s)) s
           | _ => s
           end in
  with_conn (emit (Await t) (conn s)) s.

(** The process exits by itself and the event loop reaps it. *)
Definition process_exits (code : Z) (s : Session P) : Session P :=
  match returncode (proc (conn s)) with
  | Some _ => s
  | None => with_conn (with_proc (reaped code (proc (conn s))) (conn s)) s
  end.

End Updates.

(** Who runs next: one of the tasks, the handler's coroutine, or the
    process exiting by itself. *)
Inductive turn :=
| Run (t : task_id)
| Main
| ProcessExits (code : Z).

(** What a handler leaves behind: the actions before a process exists, and
    the session once one was spawned. *)
Record Handled (P : Type) := {
  before : list Action;
  session : option (Session P)
}.

(** The surroundings of one connection: the settings, the answer of
    [asyncio.create_subprocess_exec], and the answers the pipes and the
    socket will give, in order. *)
Record World (P : Type) := {
  world_settings : Settings;
  spawn : list str -> str -> result exn Process;
  stdout_answers : list read_result;
  stderr_answers : list read_result;
  peer : list (recv_result P)
}.

Definition start {P} (w : World P) (p : Process) (first : Action)
    (ts : list task_id) : Session P :=
  {| conn := {| proc := p; clock := 0; log := [(0%N, first)];
                peer_gone := false |};
     stdout_reads := stdout_answers w;
     stderr_reads := stderr_answers w;
     inbound := peer w;
     tasks := map (fun t => (t, Running)) ts;
     main := Serving |}.

End Stream.

Import Stream.

(** ** [watch_environments_websocket] *)

Module Watch.

Definition handle_stdout (s : Session str) : Session str :=
  step_reader Stdout (lit "stdout") s.

Definition handle_stderr (s : Session str) : Session str :=
  step_reader Stderr (lit "stderr") s.

(** The [finally] block up to the cancel loop; [false] when it never gets
    past [process.wait()]. *)
Definition cleanup (c : Conn) : Conn * bool :=
  match returncode (proc c) with
  | Some _ => (c, true)
  | None =>
      let c := terminate c in
      let '(c, exited) := wait_for_exit 5000 c in
      if exited then (c, true)
      else wait (kill c)
  end.

(** [for task in tasks: task.cancel(); await task] *)
Definition cancel_tasks (s : Session str) : Session str :=
  fold_left cancel_and_await (map fst (tasks s)) s.

Definition finally (s : Session str) : Session str * bool :=
  let '(c, ok) := cleanup (conn s) in
  let s := with_conn c s in
  if ok then (cancel_tasks s, true) else (with_main Stuck s, false).

(** The handler's coroutine gets the processor while it sits in
    [await websocket.receive_text()]. *)
Definition step_main (s : Session str) : Session str :=
  match main s with
  | Serving =>
      match inbound s with
      | [] => s
      | Received _ :: q => with_inbound q s
      | Disconnected :: q =>
          let s := with_conn (mark_peer_gone (conn s)) (with_inbound q s) in
          let '(s, ok) := finally s in
          if ok then with_main Returned s else s
      | RecvRaises e :: q =>
          let '(s, ok) := finally (with_inbound q s) in
          if ok then
            let '(c, _) :=
              send_json (Tagged (lit "error")
                                (lit "WebSocket error: " ++ exn_str e))
                        (conn s) in
            with_main Returned (with_conn c s)
          else s
      end
  | _ => s
  end.

Definition step (s : Session str) (tn : turn) : Session str :=
  match tn with
  | Run Stdout => handle_stdout s
  | Run Stderr => handle_stderr s
  | Run Input => s
  | Main => step_main s
  | ProcessExits code => process_exits code s
  end.

Definition run (sched : list turn) (s : Session str) : Session str :=
  fold_left step sched s.

Definition watch_environments_websocket (w : World str) (sched : list turn)
  : Handled str :=
  let cmd := [get_container_use_bin (world_settings w); lit "watch"] in
  let cwd := get_container_use_work_dir (world_settings w) in
  match spawn w cmd cwd with
  | Raises e =>
      {| before := [Accept;
                    SendJson (Tagged (lit "error")
                                     (lit "WebSocket error: " ++ exn_str e))];
         session := None |}
  | Returns p =>
      {| before := [Accept];
         session := Some (run sched (start w p (Spawn cmd cwd false)
                                           [Stdout; Stderr])) |}
  end.

End Watch.

(** ** [terminal_websocket] *)

Module Terminal.

(** A value [websocket.receive_json()] returns; the relay never looks
    inside a number, kept here as an integer. *)
#[local] Unset Elimination Schemes.
Inductive json :=
| JNull
| JBool (b : bool)
| JNumber (n : Z)
| JString (s : str)
| JArray (items : list json)
| JObject (fields : list (str * json)).
#[local] Set Elimination Schemes.

(** [d.get(key)] on a [dict] *)
Definition dict_get (d : list (str * json)) (key : str) : option json :=
  option_map snd (find (fun kv => str_eqb (fst kv) key) d).

(** [message.get("type") == "stdin"] *)
Definition tagged_stdin (d : list (str * json)) : bool :=
  match dict_get d (lit "type") with
  | Some (JString t) => str_eqb t (lit "stdin")
  | _ => false
  end.

Definition handle_stdout (s : Session json) : Session json :=
  step_reader Stdout (lit "stdout") s.

Definition handle_stderr (s : Session json) : Session json :=
  step_reader Stderr (lit "stderr") s.

(** One turn of the input relay's [while True] body on what the socket
    gave; [false] for [break].  A value without [.get], a [data] without
    [.encode], a string that does not encode and a failing [drain()] all
    raise inside the [try] and reach [except Exception: break]. *)
Definition input_iteration (answer : recv_result json) (c : Conn)
  : Conn * bool :=
  match answer with
  | Disconnected => (mark_peer_gone c, false)
  | RecvRaises _ => (c, false)
  | Received (JObject d) =>
      if tagged_stdin d then
        match dict_get d (lit "data") with
        | None | Some (JString _) =>
            let data := match dict_get d (lit "data") with
                        | Some (JString t) => t
                        | _ => []
                        end in
            match encode data with
            | Some b =>
                let c := emit (WriteStdin b) c in
                (c, negb (stdin_broken (proc c)))
            | None => (c, false)
            end
        | Some _ => (c, false)
        end
      else (c, true)
  | Received _ => (c, false)
  end.

Definition handle_websocket_input (s : Session json) : Session json :=
  match status s Input with
  | Some Running =>
      match inbound s with
      | [] => s
      | answer :: q =>
          let '(c, again) := input_iteration answer (conn s) in
          let s := with_conn c (with_inbound q s) in
          if again then s
          else with_tasks (set_status Input Finished (tasks s)) s
      end
  | _ => s
  end.

(** The [finally] block up to the cancel loop. *)
Definition cleanup (c : Conn) : Conn * bool :=
  match returncode (proc c) with
  | Some _ => (c, true)
  | None =>
      let c := if has_stdin (proc c) then emit CloseStdin c else c in
      let c := terminate c in
      let '(c, exited) := wait_for_exit 5000 c in
      if exited then (c, true)
      else wait (kill c)
  end.

(** [for task in tasks: if not task.done(): task.cancel(); await task] *)
Definition cancel_remaining (s : Session json) : Session json :=
  fold_left
    (fun s t => match status s t with
                | Some Running => cancel_and_await s t
                | _ => s
                end)
    (map fst (tasks s)) s.

Definition finally (s : Session json) : Session json * bool :=
  let '(c, ok) := cleanup (conn s) in
  let s := with_conn c s in
  if ok then (cancel_remaining s, true) else (with_main Stuck s, false).

(** The handler's coroutine gets the processor while it sits in
    [asyncio.wait(tasks, return_when=FIRST_COMPLETED)]. *)
Definition step_main (s : Session json) : Session json :=
  match main s with
  | Serving =>
      if existsb (fun e => done (snd e)) (tasks s) then
        let '(s, ok) := finally s in
        if ok then with_main Returned s else s
      else s
  | _ => s
  end.

Definition step (s : Session json) (tn : turn) : Session json :=
  match tn with
  | Run Stdout => handle_stdout s
  | Run Stderr => handle_stderr s
  | Run Input => handle_websocket_input s
  | Main => step_main s
  | ProcessExits code => process_exits code s
  end.

Definition run (sched : list turn) (s : Session json) : Session json :=
  fold_left step sched s.

Definition terminal_websocket (environment_id : str) (w : World json)
    (sched : list turn) : Handled json :=
  match environment_id with
  | [] =>
      {| before := [Accept;
                    SendJson (ErrorOnly (lit "Environment ID is required"));
                    CloseSocket];
         session := None |}
  | _ :: _ =>
      let cmd := [get_container_use_bin (world_settings w); lit "terminal";
                  environment_id] in
      let cwd := get_container_use_work_dir (world_settings w) in
      match spawn w cmd cwd with
      | Raises e =>
          {| before := [Accept;
                        SendJson (Tagged (lit "error")
                                         (lit "Terminal error: "
                                          ++ exn_str e))];
             session := None |}
      | Returns p =>
          {| before := [Accept];
             session := Some (run sched (start w p (Spawn cmd cwd true)
                                               [Stdout; Stderr; Input])) |}
      end
  end.

End Terminal.

Import Watch Terminal.

(** ** Vocabulary of the properties *)

(** [phrase] occurs in [hay] up to the case of ASCII letters. *)
Definition occurs_ci (hay phrase : str) : Prop :=
  exists pre mid post, hay = pre ++ mid ++ post /\ lower mid = phrase.

Definition mentions_not_found (text : str) : Prop :=
  occurs_ci text (lit "not found") \/ occurs_ci text (lit "does not exist").


(** Everything a handler did, in order. *)
Definition actions {P} (h : Handled P) : list Action :=
  before h ++ match session h with
              | Some s => map snd (log (conn s))
              | None => []
              end.

Definition sent (acts : list Action) : list Message :=
  flat_map (fun a => match a with SendJson m => [m] | _ => [] end) acts.

Definition is_spawn (a : Action) : bool :=
  match a with Spawn _ _ _ => true | _ => false end.

(** The exit that SIGTERM sets off in a process, if any. *)
Definition exit_after_sigterm (p : Process) : option (N * Z) :=
  match exiting p with
  | Some e => Some e
  | None => on_sigterm p
  end.

(** Whether the process is gone less than [t] milliseconds after
    SIGTERM. *)
Definition exits_within (t : N) (p : Process) : bool :=
  match exit_after_sigterm p with
  | Some (d, _) => (d <? t)%N
  | None => false
  end.

(** A header row, as [parse_environment_list] recognises it. *)
Definition is_header (line : str) : bool :=
  startswith (strip line) (lit "ID").

(** The rows with the first header row taken out and nothing else. *)
Fixpoint without_header (lines : list str) : list str :=
  match lines with
  | [] => []
  | l :: rest => if is_header l then rest else l :: without_header rest
  end.

(** The rows after the first header row. *)
Fixpoint below_header (lines : list str) : list str :=
  match lines with
  | [] => []
  | l :: rest => if is_header l then rest else below_header rest
  end.

(** The rows the parser reads: those below the first header row when
    there is one, all of them otherwise. *)
Definition data_rows (lines : list str) : list str :=
  if existsb is_header lines then below_header lines else lines.

(** The columns of a row: its pieces between runs of two or more
    whitespace characters. *)
Definition columns (row : str) : list str := re_split_ws2 (strip row).

Definition environment_of (cols : list str) : Environment :=
  {| id := nth 0 cols []; title := nth 1 cols [];
     created := nth 2 cols []; updated := nth 3 cols [] |}.

(** One [Environment] per non-empty row with at least four columns. *)
Definition environments_of (rows : list str) : list Environment :=
  map environment_of
    (filter (fun cols => (4 <=? List.length cols)%nat)
       (map columns (filter (fun r => negb (is_empty (strip r))) rows))).

(** No whitespace at the front. *)
Definition starts_clean (s : str) : bool :=
  match s with [] => true | c :: _ => negb (isspace c) end.

(** No whitespace at either end. *)
Definition trimmed (s : str) : bool :=
  starts_clean s && starts_clean (rev s).

(** The table with a data row above its header row. *)
Definition table_with_row_above_header : str :=
  join [10%N] [lit "a  b  c  d"; lit "ID  T  C  U"; lit "e  f  g  h"].

(** *** The properties as the specification words them, where the code
        does otherwise *)

(** The relay passes over [answer]: it is still running afterwards and
    the handler, given the processor, stays in its wait. *)
Definition relay_ignores (answer : recv_result json) (s : Session json)
  : Prop :=
  let s' := handle_websocket_input (with_inbound [answer] s) in
  status s' Input = Some Running /\ main (Terminal.step_main s') = Serving.

(** The watch handler's receive loop shuts the session down on
    [answer]. *)
Definition receive_triggers_shutdown (answer : recv_result str)
    (s : Session str) : Prop :=
  main (Watch.step_main (with_inbound [answer] s)) = Returned.

(** A reader forwards a message for [data] and goes on reading. *)
Definition reader_forwards (tag : str) (data : bytes) (c : Conn) : Prop :=
  exists text,
    reader_iteration tag (ReadBytes data) c
    = (emit (SendJson (Tagged tag text)) c, true).


(** The parser skips the header row and only it. *)
Definition parses_all_but_header (output : str) : Prop :=
  parse_environment_list output
  = environments_of (without_header (split_lines (strip output))).

(** The line [run_container_use_command] prints before it starts the
    tool. *)
Definition command_line (rt : Runtime) (args : list str) (cwd : option str)
  : str :=
  lit "Running command: "
  ++ join (lit " ") (get_container_use_bin (settings rt) :: args)
  ++ lit " in directory: "
  ++ match cwd with
     | None => get_container_use_work_dir (settings rt)
     | Some d => d
     end.



(** *** Concrete surroundings used in the examples *)

Definition default_settings : Settings :=
  {| getenv := fun _ => None;
     CONTAINER_USE_BIN := lit "container-use";
     CONTAINER_USE_WORK_DIR := lit "." |}.

Definition ascii_bytes (s : string) : bytes :=
  map byte_of_ascii (list_ascii_of_string s).

(** A runtime whose tool prints [stdout] and [stderr] and exits with
    [code], whatever the command; the server's own standard output takes
    every line. *)
Definition tool_printing (stdout stderr : bytes) (code : option Z)
  : Runtime :=
  {| settings := default_settings;
     print := fun _ => Returns tt;
     create_subprocess_exec := fun _ _ =>
       Returns {| communicate := Returns (stdout, stderr);
                  child_returncode := code |};
     decode_error := fun _ =>
       Exception (lit "'utf-8' codec can't decode byte 0xff in position 0: invalid start byte") |}.




(** A process that leaves [ms] milliseconds after SIGTERM. *)
Definition polite_process (ms : N) (with_stdin : bool) : Process :=
  {| returncode := None; exiting := None;
     on_sigterm := Some (ms, (-15)%Z); on_sigkill := 3;
     has_stdin := with_stdin; stdin_broken := false |}.

(** A process that ignores SIGTERM. *)
Definition stubborn_process (with_stdin : bool) : Process :=
  {| returncode := None; exiting := None;
     on_sigterm := None; on_sigkill := 3;
     has_stdin := with_stdin; stdin_broken := false |}.

Definition line1 : bytes := ascii_bytes "line1" ++ [x0a].

(** The watcher writes one line and ends; the peer stays silent. *)
Definition one_line_world : World str :=
  {| world_settings := default_settings;
     spawn := fun _ _ => Returns (polite_process 20 false);
     stdout_answers := [ReadBytes line1; ReadBytes []];
     stderr_answers := [ReadBytes []];
     peer := [] |}.

(** A terminal whose peer sends the given frames. *)
Definition terminal_world (frames : list (recv_result json)) : World json :=
  {| world_settings := default_settings;
     spawn := fun _ _ => Returns (polite_process 20 true);
     stdout_answers := [];
     stderr_answers := [];
     peer := frames |}.

Definition fresh_watch : Session str :=
  start one_line_world (polite_process 20 false)
        (Spawn [lit "container-use"; lit "watch"] (lit ".") false)
        [Stdout; Stderr].

Definition fresh_terminal : Session json :=
  start (terminal_world []) (polite_process 20 true)
        (Spawn [lit "container-use"; lit "terminal"; lit "env-7"] (lit ".")
               true)
        [Stdout; Stderr; Input].

Definition fresh_conn : Conn := conn fresh_terminal.

(** *** Invariants of a session *)

Definition logged {P} (a : Action) (s : Session P) : Prop :=
  In a (map snd (log (conn s))).

(** A task that is over: it finished by itself, or it was cancelled and
    awaited. *)
Definition settled {P} (s : Session P) (t : task_id) : Prop :=
  status s t = Some Finished
  \/ (status s t = Some Cancelled
      /\ logged (Cancel t) s /\ logged (Await t) s).

(** The handler has returned, with the process reaped and every task of
    [ts] over. *)
Definition ended {P} (ts : list task_id) (s : Session P) : Prop :=
  main s = Returned
  /\ returncode (proc (conn s)) <> None
  /\ forall t, In t ts -> settled s t.

(** The handler is in its wait and has cancelled nothing yet. *)
Definition serving {P} (s : Session P) : Prop :=
  main s = Serving /\ forall t, status s t <> Some Cancelled.

(** What holds of a session of task list [ts] from its start on. *)
Definition session_inv {P} (ts : list task_id) (s : Session P) : Prop :=
  map fst (tasks s) = ts /\ (serving s \/ ended ts s).

Definition is_object (v : json) : bool :=
  match v with JObject _ => true | _ => false end.

(** The schedule in which the watcher's line and both ends of file are
    read and the process then exits. *)
Definition line_then_exit : list turn :=
  [Run Stdout; Run Stdout; Run Stderr; ProcessExits 0].

(** *** Proof steps *)

Ltac conn_simpl :=
  cbn [with_proc set_exiting reaped emit advance mark_peer_gone
       proc clock log peer_gone
       returncode exiting on_sigterm on_sigkill has_stdin stdin_broken].

Ltac split_iteration :=
  match goal with
  | |- context [reader_iteration ?tg ?a ?c] =>
      destruct (reader_iteration tg a c) as [? [|]]
  | |- context [input_iteration ?a ?c] =>
      destruct (input_iteration a c) as [? [|]]
  end.

Ltac split_tests :=
  repeat (match goal with
          | |- context [(?a <=? ?b)%N] =>
              destruct (N.leb_spec a b); try (exfalso; lia)
          | |- context [(?a <? ?b)%N] =>
              destruct (N.ltb_spec a b); try (exfalso; lia)
          | |- context [(?a =? ?b)%N] =>
              destruct (N.eqb_spec a b); try (exfalso; lia)
          end; cbn [andb]; cbv iota).

Ltac range_test :=
  unfold second3, second4, is_cont, between; split_tests; reflexivity.

(** Names the printed line in the unfolded body of
    [run_container_use_command]. *)
Ltac name_command_line rt args cwd :=
  unfold run_container_use_command; cbv zeta;
  match goal with
  | |- context [bind (print rt ?l) ?k] =>
      change (bind (print rt l) k)
        with (bind (print rt (command_line rt args cwd)) k)
  end.

(** ** [app/core/config.py]: CORS origins *)

Module Config.

(** A value handed to the validator: a string, a list, or anything
    else. *)
#[local] Unset Elimination Schemes.
Inductive pyval :=
| PStr (s : str)
| PList (items : list pyval)
| POther.
#[local] Set Elimination Schemes.

(** [parse_cors(v)]; [Raises v] is [raise ValueError(v)]. *)
Definition parse_cors (v : pyval) : result pyval pyval :=
  match v with
  | PStr s =>
      if negb (startswith s (lit "["))
      then Returns (PList (map (fun i => PStr (strip i))
                               (split_on 44%N [] s)))
      else Returns v
  | PList _ => Returns v
  | POther => Raises v
  end.

Fixpoint drop_leading (ch : N) (s : str) : str :=
  match s with
  | c :: s' => if (c =? ch)%N then drop_leading ch s' else s
  | [] => []
  end.

(** [s.rstrip("/")] for the one character [ch] *)
Definition rstrip_char (ch : N) (s : str) : str :=
  rev (drop_leading ch (rev s)).

(** [Settings.all_cors_origins]; each element of [BACKEND_CORS_ORIGINS]
    stands for [str(origin)]. *)
Definition all_cors_origins (BACKEND_CORS_ORIGINS : list str)
    (FRONTEND_HOST : str) : list str :=
  map (rstrip_char 47%N) BACKEND_CORS_ORIGINS ++ [FRONTEND_HOST].

End Config.

Import Config.

(** ** Further vocabulary *)

(** The payload of a message tagged [tag], if the action sends one. *)
Definition tagged_data (tag : str) (a : Action) : list str :=
  match a with
  | SendJson (Tagged t d) => if str_eqb t tag then [d] else []
  | _ => []
  end.

(** The payloads sent under [tag] so far, oldest first. *)
Definition data_sent (tag : str) (c : Conn) : list str :=
  flat_map (tagged_data tag) (map snd (log c)).

(** The texts a reader forwards from the answers of its pipe when nothing
    stops it: the decoded chunks up to the first end of file, failed read
    or undecodable chunk. *)
Fixpoint forwardable (answers : list read_result) : list str :=
  match answers with
  | ReadBytes (b :: data) :: rest =>
      match decode (b :: data) with
      | Some text => text :: forwardable rest
      | None => []
      end
  | _ => []
  end.

Definition is_prefix {A} (a b : list A) : Prop := exists rest, b = a ++ rest.

(** The tag a reader sends under. *)
Definition tag_of (t : task_id) : str :=
  match t with
  | Stdout => lit "stdout"
  | Stderr => lit "stderr"
  | Input => lit "stdin"
  end.

(** How often an action of kind [k] was taken. *)
Definition times (k : Action -> bool) (c : Conn) : nat :=
  List.length (filter k (map snd (log c))).

Definition is_terminate (a : Action) : bool :=
  match a with Terminate => true | _ => false end.

Definition is_kill (a : Action) : bool :=
  match a with Kill => true | _ => false end.

Definition is_error_message (m : Message) : bool :=
  match m with
  | ErrorOnly _ => true
  | Tagged t _ => str_eqb t (lit "error")
  end.

Definition is_error_action (a : Action) : bool :=
  match a with SendJson m => is_error_message m | _ => false end.

(** An action only the handler's own coroutine takes. *)
Definition by_handler_only (k : Action -> bool) : Prop :=
  forall a, k a = true ->
            match a with
            | SendJson (Tagged t _) =>
                str_eqb t (lit "stdout") = false
                /\ str_eqb t (lit "stderr") = false
            | WriteStdin _ => False
            | _ => True
            end.

(** The table as the tool prints it: a header row, then one row per
    environment, the columns two spaces apart. *)
Definition header_row : str := lit "ID  TITLE  CREATED  UPDATED".

Definition render_row (e : Environment) : str :=
  join (lit "  ") [id e; title e; created e; updated e].

Definition render_table (envs : list Environment) : str :=
  join [10%N] (header_row :: map render_row envs).

(** No two whitespace characters side by side. *)
Fixpoint single_spaced (s : str) : bool :=
  match s with
  | a :: (b :: _) as rest => negb (isspace a && isspace b) && single_spaced rest
  | _ => true
  end.

(** Text that can stand in a column: not empty, no whitespace at either
    end, no two whitespace characters side by side, no line break. *)
Definition column_text (f : str) : bool :=
  negb (is_empty f) && trimmed f && single_spaced f
  && negb (existsb (N.eqb 10) f).

Definition column_texts (e : Environment) : bool :=
  column_text (id e) && column_text (title e)
  && column_text (created e) && column_text (updated e).

(** A JSON object carrying [text] for the process's input. *)
Definition stdin_message (text : str) : json :=
  JObject [(lit "type", JString (lit "stdin")); (lit "data", JString text)].

(** The tool's binary is not there. *)
Definition no_such_file : exn :=
  Exception (lit "[Errno 2] No such file or directory: 'container-use'").

Definition missing_tool : Runtime :=
  {| settings := default_settings;
     print := fun _ => Returns tt;
     create_subprocess_exec := fun _ _ => Raises no_such_file;
     decode_error := fun _ => Exception [] |}.


(** One environment and the bytes of its table, as the tool would print
    them. *)
Definition env_7 : Environment :=
  {| id := lit "env-7"; title := lit "Fix the build";
     created := lit "2 days ago"; updated := lit "1 hour ago" |}.

Definition env_7_table : bytes :=
  match encode (render_table [env_7]) with
  | Some b => b
  | None => []
  end.

(** *** Invariants of the streams *)

(** The messages sent under the tag of reader [t] are the forwardable
    texts of the answers its pipe has given: all of them up to where the
    reader stands while it runs, an initial part of them once it is
    over. *)
Definition stream_inv {P} (answers : list read_result) (t : task_id)
    (s : Session P) : Prop :=
  match status s t with
  | Some Running =>
      data_sent (tag_of t) (conn s) ++ forwardable (reads_of t s)
      = forwardable answers
  | _ => is_prefix (data_sent (tag_of t) (conn s)) (forwardable answers)
  end.

(** A step that leaves the stream of reader [t] alone. *)
Definition quiet {P} (t : task_id) (s s' : Session P) : Prop :=
  data_sent (tag_of t) (conn s') = data_sent (tag_of t) (conn s)
  /\ reads_of t s' = reads_of t s
  /\ (status s' t = Some Running -> status s t = Some Running).

(** The actions of a teardown. *)
Definition is_signal (a : Action) : bool :=
  match a with
  | Terminate | WaitFor _ | Kill | Wait | CloseStdin => true
  | _ => false
  end.

Definition is_cancel (a : Action) : bool :=
  match a with
  | Cancel _ | Await _ => true
  | _ => false
  end.

(** How many of the logged entries are actions of kind [k]. *)
Definition count (k : Action -> bool) (added : list (N * Action)) : nat :=
  List.length (filter k (map snd added)).

(** What one turn of the handler may add to the log: a teardown at most,
    with SIGKILL only after SIGTERM, one error message at most, no
    spawn, and no signal at all for a process that was already reaped. *)
Definition handler_turn_adds (reaped_before : Prop)
    (added : list (N * Action)) : Prop :=
  (count is_kill added <= count is_terminate added <= 1)%nat
  /\ (count is_error_action added <= 1)%nat
  /\ count is_spawn added = 0%nat
  /\ (reaped_before -> count is_signal added = 0%nat).

(** The log of a session obeys the once-only rules. *)
Definition once_only {P} (s : Session P) : Prop :=
  main s <> Stuck
  /\ (main s = Serving ->
      times is_signal (conn s) = 0%nat
      /\ times is_terminate (conn s) = 0%nat
      /\ times is_kill (conn s) = 0%nat
      /\ times is_error_action (conn s) = 0%nat)
  /\ (times is_kill (conn s) <= times is_terminate (conn s) <= 1)%nat
  /\ (times is_error_action (conn s) <= 1)%nat
  /\ times is_spawn (conn s) = 1%nat.

(** How many of a handler's actions are of kind [k]. *)
Definition occurrences {P} (k : Action -> bool) (h : Handled P) : nat :=
  List.length (filter k (actions h)).

(** The process is reaped and no signal was ever sent. *)
Definition reaped_unsignalled {P} (s : Session P) : Prop :=
  once_only s
  /\ returncode (proc (conn s)) <> None
  /\ times is_signal (conn s) = 0%nat.

Definition is_write (a : Action) : bool :=
  match a with WriteStdin _ => true | _ => false end.

Definition is_close_stdin (a : Action) : bool :=
  match a with CloseStdin => true | _ => false end.

(** An action on the process's input pipe. *)
Definition touches_stdin (a : Action) : bool := is_write a || is_close_stdin a.

(** * Properties *)

(** ** [run_container_use_command] *)

Lemma decode_or_empty_spec (rt : Runtime) (b : bytes) :
  decode_or_empty rt b
  = match decode b with
    | Some s => Returns s
    | None => Raises (decode_error rt b)
    end.
Proof. destruct b; reflexivity. Qed.

Lemma returncode_or_0_spec (rc : option Z) :
  returncode_or_0 rc = match rc with None => 0%Z | Some c => c end.
Proof.
  destruct rc as [c|]; [|reflexivity]. unfold returncode_or_0.
  destruct (Z.eqb_spec c 0); congruence.
Qed.

(** What the [try] statement gives once the line is printed: on both of
    its exits a value, never an exception. *)
Lemma run_container_use_command_printed (rt : Runtime) (args : list str)
    (cwd : option str) (u : unit) :
  print rt (command_line rt args cwd) = Returns u ->
  exists v, run_container_use_command rt args cwd = Returns v.
Proof.
  intros Hp. name_command_line rt args cwd. rewrite Hp.
  unfold bind, try_except.
  match goal with
  | |- exists v, match ?body with _ => _ end = _ => destruct body as [v | e]
  end; eauto.
Qed.

(** An exception raised by the [print] leaves the function. *)
Lemma run_container_use_command_print_raises (rt : Runtime)
    (args : list str) (cwd : option str) (e : exn) :
  print rt (command_line rt args cwd) = Raises e ->
  run_container_use_command rt args cwd = Raises e.
Proof.
  intros Hp. name_command_line rt args cwd. now rewrite Hp.
Qed.



(** ** The HTTP routes *)

Lemma startswith_prefix (s p : str) :
  startswith s p = true <-> exists post, s = p ++ post.
Proof.
  revert s. induction p as [|a p IH]; intros s.
  - destruct s; cbn; split; eauto.
  - destruct s as [|b s]; cbn [startswith].
    + split; [discriminate | intros [post H]; discriminate H].
    + rewrite andb_true_iff, N.eqb_eq, IH. split.
      * intros [-> [post ->]]. now exists post.
      * intros [post H]. injection H as -> ->. eauto.
Qed.

Lemma contains_infix (hay needle : str) :
  contains hay needle = true
  <-> exists pre post, hay = pre ++ needle ++ post.
Proof.
  induction hay as [|c hay IH]; cbn [contains];
    rewrite orb_true_iff, startswith_prefix.
  - split.
    + intros [[post H] | H]; [|discriminate]. exists [], post. exact H.
    + intros (pre & post & H). left. destruct pre as [|x pre].
      * now exists post.
      * discriminate H.
  - rewrite IH. split.
    + intros [[post H] | (pre & post & H)].
      * exists [], post. exact H.
      * exists (c :: pre), post. cbn. now rewrite H.
    + intros (pre & post & H). destruct pre as [|x pre].
      * left. now exists post.
      * right. injection H as -> ->. eauto.
Qed.

(** The test the routes make is the case-blind occurrence of the
    phrase. *)
Lemma contains_lower_occurs (hay phrase : str) :
  contains (lower hay) phrase = true <-> occurs_ci hay phrase.
Proof.
  rewrite contains_infix. unfold occurs_ci, lower. split.
  - intros (pre & post & H).
    apply map_eq_app in H as (pre' & rest & -> & Hpre & H).
    apply map_eq_app in H as (mid & post' & -> & Hmid & Hpost).
    now exists pre', mid, post'.
  - intros (pre & mid & post & -> & <-).
    exists (map lower_char pre), (map lower_char post).
    now rewrite !map_app.
Qed.

Lemma is_not_found_mentions (text : str) :
  is_not_found text = true <-> mentions_not_found text.
Proof.
  unfold is_not_found, mentions_not_found.
  now rewrite orb_true_iff, !contains_lower_occurs.
Qed.

Lemma command_failed_status {A} (environment_id failure stderr stdout : str) :
  let status :=
    status_of (@command_failed A environment_id failure stderr stdout) in
  (status = 404%Z <-> mentions_not_found (error_output stderr stdout))
  /\ (status = 500%Z <-> ~ mentions_not_found (error_output stderr stdout)).
Proof.
  cbv zeta. unfold command_failed. rewrite <- is_not_found_mentions.
  destruct (is_not_found (error_output stderr stdout)); cbn;
    split; split; intros H; try reflexivity; try discriminate;
    try congruence; try (now destruct H).
Qed.


Lemma valid_action_accepted (act : str) :
  In act valid_actions ->
  is_empty act = false /\ existsb (str_eqb act) valid_actions = true.
Proof.
  cbn. intros [<- | [<- | [<- | [<- | []]]]]; split; reflexivity.
Qed.




(** ** The stream readers *)

(** The single byte [0xff] is not UTF-8: the reader forwards nothing and
    stops. *)
Lemma C6_counterexample :
  ~ reader_forwards (lit "stdout") [xff] fresh_conn.
Proof.
  intros [text H]. vm_compute in H. discriminate H.
Qed.

Lemma reader_iteration_decoded (tag : str) (data : bytes) (text : str)
    (c : Conn) :
  data <> [] -> decode data = Some text ->
  reader_iteration tag (ReadBytes data) c = send_json (Tagged tag text) c.
Proof.
  intros Hne Hd. destruct data as [|b data]; [congruence|].
  unfold reader_iteration. now rewrite Hd.
Qed.

Lemma reader_iteration_undecodable (tag : str) (data : bytes) (c : Conn) :
  decode data = None ->
  reader_iteration tag (ReadBytes data) c = (c, false).
Proof.
  intros Hd. destruct data as [|b data]; [reflexivity|].
  unfold reader_iteration. now rewrite Hd.
Qed.

(** C6, amended: for every non-empty byte sequence read by an
    output-stream reader whose peer is still there, the reader forwards
    one message carrying the decoded text and reads on when the bytes are
    valid UTF-8; when they are not, decoding raises inside the reader,
    which catches the error and stops without forwarding anything. *)
Theorem C6_reader_decodes_strictly (P : Type) (t : task_id) (tag : str)
    (data : bytes) (q : list read_result) (s : Session P) :
  t = Stdout \/ t = Stderr ->
  status s t = Some Running ->
  data <> [] ->
  peer_gone (conn s) = false ->
  let s' := step_reader t tag (with_reads t (ReadBytes data :: q) s) in
  match decode data with
  | Some text =>
      s' = with_conn (emit (SendJson (Tagged tag text)) (conn s))
                     (with_reads t q s)
  | None =>
      s' = with_tasks (set_status t Finished (tasks s)) (with_reads t q s)
  end.
Proof.
  intros Ht Hrun Hne Hpeer. cbv zeta. unfold step_reader.
  assert (Hst : status (with_reads t (ReadBytes data :: q) s) t
                = Some Running) by exact Hrun.
  rewrite Hst.
  assert (Hq : reads_of t (with_reads t (ReadBytes data :: q) s)
               = ReadBytes data :: q).
  { destruct Ht as [-> | ->]; reflexivity. }
  rewrite Hq.
  destruct (decode data) as [text|] eqn:Hd.
  - rewrite reader_iteration_decoded with (text := text) by assumption.
    unfold send_json. cbn [conn with_reads]. rewrite Hpeer.
    destruct Ht as [-> | ->]; reflexivity.
  - rewrite reader_iteration_undecodable by assumption.
    destruct Ht as [-> | ->]; reflexivity.
Qed.

Lemma C6_reader_decodes_strictly_witness :
  step_reader Stdout (lit "stdout")
    (with_reads Stdout [ReadBytes [xe2; x82; xac]] fresh_terminal)
  = with_conn (emit (SendJson (Tagged (lit "stdout") [8364%N]))
                    (conn fresh_terminal))
              (with_reads Stdout [] fresh_terminal).
Proof.
  apply (@C6_reader_decodes_strictly json Stdout (lit "stdout") [xe2; x82; xac]
           [] fresh_terminal).
  - left; reflexivity.
  - reflexivity.
  - discriminate.
  - reflexivity.
Defined.

(** ** The terminal handler's guard *)

(** C7: a terminal connection opened with an empty environment identifier
    gets exactly one structured error message and is closed; no process
    is spawned. *)
Theorem C7_empty_environment_id (w : World json) (sched : list turn) :
  let h := terminal_websocket [] w sched in
  actions h
  = [Accept; SendJson (ErrorOnly (lit "Environment ID is required"));
     CloseSocket]
  /\ sent (actions h) = [ErrorOnly (lit "Environment ID is required")]
  /\ existsb is_spawn (actions h) = false
  /\ session h = None.
Proof. repeat split. Qed.

(** ** Teardown of the process *)

Lemma terminal_cleanup_as_watch (c : Conn) :
  returncode (proc c) = None ->
  Terminal.cleanup c
  = Watch.cleanup (if has_stdin (proc c) then emit CloseStdin c else c).
Proof.
  intros H. unfold Terminal.cleanup, Watch.cleanup. rewrite H.
  destruct (has_stdin (proc c)); cbn [emit proc]; rewrite H; reflexivity.
Qed.

Lemma watch_cleanup_reaps (c : Conn) :
  returncode (proc c) = None ->
  exists c',
    Watch.cleanup c = (c', true)
    /\ returncode (proc c') <> None
    /\ peer_gone c' = peer_gone c
    /\ log c'
       = log c ++ [(clock c, Terminate); (clock c, WaitFor 5000)]
         ++ (if exits_within 5000 (proc c) then []
             else [((clock c + 5000)%N, Kill); ((clock c + 5000)%N, Wait)])
    /\ (if exits_within 5000 (proc c)
        then (clock c' < clock c + 5000)%N
        else (clock c + 5000 <= clock c')%N).
Proof.
  intros H. unfold Watch.cleanup. rewrite H.
  unfold exits_within, exit_after_sigterm.
  unfold terminate, wait_for_exit, kill, wait.
  cbn [emit proc clock log peer_gone].
  destruct (exiting (proc c)) as [[d code]|] eqn:Hex;
    [|destruct (on_sigterm (proc c)) as [[d code]|] eqn:Hterm];
    conn_simpl; rewrite ?H, ?Hex; conn_simpl;
    try (destruct (N.ltb_spec d 5000);
         [|conn_simpl; destruct (N.leb_spec (d - 5000) (on_sigkill (proc c)))]);
    conn_simpl; rewrite ?H; conn_simpl;
    eexists; (split; [reflexivity|]); cbn;
    (split; [discriminate|]); (split; [reflexivity|]);
    (split; [rewrite <- ?app_assoc; reflexivity | lia]).
Qed.

(** C1: when the process is still running, the teardown of a watch or
    terminal session sends SIGTERM, waits for the exit with a bound of 5
    seconds and, when the process has not exited by then, sends SIGKILL
    and waits without bound; it returns, and only with the process
    reaped. *)
Theorem C1_teardown_reaps (c : Conn) :
  returncode (proc c) = None ->
  let t0 := clock c in
  let signals :=
    [(t0, Terminate); (t0, WaitFor 5000)]
    ++ (if exits_within 5000 (proc c) then []
        else [((t0 + 5000)%N, Kill); ((t0 + 5000)%N, Wait)]) in
  let in_time (c' : Conn) :=
    if exits_within 5000 (proc c) then (clock c' < t0 + 5000)%N
    else (t0 + 5000 <= clock c')%N in
  (exists c', Watch.cleanup c = (c', true)
              /\ returncode (proc c') <> None
              /\ log c' = log c ++ signals
              /\ in_time c')
  /\ (exists c', Terminal.cleanup c = (c', true)
                 /\ returncode (proc c') <> None
                 /\ log c'
                    = log c
                      ++ (if has_stdin (proc c) then [(t0, CloseStdin)]
                          else [])
                      ++ signals
                 /\ in_time c').
Proof.
  intros H. cbv zeta. split.
  - destruct (watch_cleanup_reaps c H) as (c' & E & Hrc & _ & Hlog & Ht).
    exists c'. auto.
  - rewrite terminal_cleanup_as_watch by exact H.
    destruct (has_stdin (proc c)).
    + destruct (watch_cleanup_reaps (emit CloseStdin c) H)
        as (c' & E & Hrc & _ & Hlog & Ht).
      exists c'. repeat split; try assumption.
      rewrite Hlog. cbn [emit log clock proc]. now rewrite <- app_assoc.
    + destruct (watch_cleanup_reaps c H) as (c' & E & Hrc & _ & Hlog & Ht).
      exists c'. auto.
Qed.

Lemma C1_teardown_reaps_witness :
  exists c',
    Terminal.cleanup
      (conn (start (terminal_world []) (stubborn_process true) Accept []))
    = (c', true)
    /\ returncode (proc c') <> None
    /\ log c'
       = [(0, Accept); (0, CloseStdin); (0, Terminate); (0, WaitFor 5000);
          (5000, Kill); (5000, Wait)]%N
    /\ (5000 <= clock c')%N.
Proof.
  apply (@C1_teardown_reaps
           (conn (start (terminal_world []) (stubborn_process true)
                        Accept []))).
  reflexivity.
Defined.

(** ** The watch session *)

Lemma watch_cleanup_total (c : Conn) :
  exists c',
    Watch.cleanup c = (c', true) /\ returncode (proc c') <> None.
Proof.
  destruct (returncode (proc c)) as [code|] eqn:H.
  - exists c. unfold Watch.cleanup. rewrite H. split; congruence.
  - destruct (watch_cleanup_reaps c H) as (c' & E & Hrc & _). eauto.
Qed.

Lemma tasks_two (ts : list (task_id * task_status)) :
  map fst ts = [Stdout; Stderr] ->
  exists a b, ts = [(Stdout, a); (Stderr, b)].
Proof.
  destruct ts as [|[t1 a] [|[t2 b] [|x ts]]]; try discriminate.
  cbn. intros H. injection H as -> ->. eauto.
Qed.

Lemma in_emit (x : Action) (a : Action) (c : Conn) :
  In x (map snd (log (emit a c))) <-> In x (map snd (log c)) \/ x = a.
Proof.
  cbn. rewrite map_app, in_app_iff. cbn. intuition congruence.
Qed.

(** After a disconnect the watch handler shuts the session down. *)
Lemma watch_finally_ends (s : Session str) :
  map fst (tasks s) = [Stdout; Stderr] ->
  (forall t, status s t <> Some Cancelled) ->
  exists s', Watch.finally s = (s', true)
             /\ ended [Stdout; Stderr] (with_main Returned s').
Proof.
  intros Hts Hnc. apply tasks_two in Hts as (a & b & Hts).
  destruct s as [c so se ib ts m]. cbn [tasks] in Hts. subst ts.
  pose proof (Hnc Stdout) as Ha. pose proof (Hnc Stderr) as Hb.
  cbn in Ha, Hb.
  unfold Watch.finally. cbn [conn].
  destruct (watch_cleanup_total c) as (c' & -> & Hrc).
  eexists. split; [reflexivity|].
  unfold ended, settled, logged.
  destruct a, b; try congruence; cbn;
    (split; [reflexivity|]); (split; [exact Hrc|]);
    intros t [<- | [<- | []]]; cbn;
    rewrite ?map_app, ?in_app_iff; cbn; intuition auto.
Qed.

(** A text message from the peer leaves the handler in its loop. *)
Lemma C5_counterexample :
  ~ receive_triggers_shutdown (Received (lit "ping")) fresh_watch.
Proof.
  unfold receive_triggers_shutdown. vm_compute. discriminate.
Qed.

(** C5, amended: in the watch channel a close frame from the peer makes
    the receive loop shut the session down, with the process reaped and
    both readers over; an inbound data message is received and dropped,
    and the loop waits for the next one. *)
Theorem C5_watch_receive_loop (s : Session str)
    (q : list (recv_result str)) :
  session_inv [Stdout; Stderr] s ->
  main s = Serving ->
  ended [Stdout; Stderr] (Watch.step_main (with_inbound (Disconnected :: q) s))
  /\ forall text,
       Watch.step_main (with_inbound (Received text :: q) s)
       = with_inbound q s.
Proof.
  intros [Hts [[_ Hnc] | [Hm _]]] Hmain; [|congruence].
  destruct s as [c so se ib ts m]. cbn [main tasks] in Hmain, Hts.
  subst m. split.
  - unfold Watch.step_main.
    cbn [with_inbound with_conn conn stdout_reads stderr_reads inbound
         tasks main].
    match goal with
    | |- context [Watch.finally ?s0] =>
        destruct (@watch_finally_ends s0) as (s' & E & Hend);
          [exact Hts | exact Hnc | rewrite E; exact Hend]
    end.
  - intros text. reflexivity.
Qed.

Lemma fresh_watch_inv : session_inv [Stdout; Stderr] fresh_watch.
Proof.
  split; [reflexivity|]. left. split; [reflexivity|].
  intros [| |]; discriminate.
Qed.

Lemma C5_watch_receive_loop_witness :
  ended [Stdout; Stderr]
        (Watch.step_main (with_inbound [Disconnected] fresh_watch))
  /\ Watch.step_main (with_inbound [Received (lit "ping")] fresh_watch)
     = with_inbound [] fresh_watch.
Proof.
  destruct (@C5_watch_receive_loop fresh_watch [] fresh_watch_inv eq_refl)
    as [Hclose Hdata].
  split; [exact Hclose | exact (Hdata (lit "ping"))].
Defined.

(** With a silent peer the watch handler never leaves its receive loop,
    whatever else happens. *)
Lemma watch_waits_for_peer (sched : list turn) (s : Session str) :
  inbound s = [] -> main s = Serving ->
  inbound (Watch.run sched s) = [] /\ main (Watch.run sched s) = Serving.
Proof.
  revert s. induction sched as [|tn sched IH]; intros s Hin Hmain.
  - now split.
  - cbn [Watch.run fold_left]. apply IH.
    + destruct tn as [[| |] | | code]; cbn [Watch.step]; try assumption.
      * unfold Watch.handle_stdout, step_reader.
        destruct (status s Stdout) as [[| |]|]; try assumption.
        destruct (reads_of Stdout s) as [|a q]; try assumption.
        destruct (reader_iteration _ a (conn s)) as [c [|]]; exact Hin.
      * unfold Watch.handle_stderr, step_reader.
        destruct (status s Stderr) as [[| |]|]; try assumption.
        destruct (reads_of Stderr s) as [|a q]; try assumption.
        destruct (reader_iteration _ a (conn s)) as [c [|]]; exact Hin.
      * unfold Watch.step_main. now rewrite Hmain, Hin.
      * unfold process_exits.
        destruct (returncode (proc (conn s))); assumption.
    + destruct tn as [[| |] | | code]; cbn [Watch.step]; try assumption.
      * unfold Watch.handle_stdout, step_reader.
        destruct (status s Stdout) as [[| |]|]; try assumption.
        destruct (reads_of Stdout s) as [|a q]; try assumption.
        destruct (reader_iteration _ a (conn s)) as [c [|]]; exact Hmain.
      * unfold Watch.handle_stderr, step_reader.
        destruct (status s Stderr) as [[| |]|]; try assumption.
        destruct (reads_of Stderr s) as [|a q]; try assumption.
        destruct (reader_iteration _ a (conn s)) as [c [|]]; exact Hmain.
      * unfold Watch.step_main. now rewrite Hmain, Hin.
      * unfold process_exits.
        destruct (returncode (proc (conn s))); assumption.
Qed.

(** C4 on the code: the watcher writes one line and exits while the peer
    stays connected and silent.  The client gets the one stdout message,
    both readers finish and the process is reaped, yet whatever runs
    afterwards the handler stays in its receive loop: nothing is
    cancelled, nothing is torn down and the handler does not return. *)
Theorem C4_watch_outlives_process (more : list turn) :
  let h := watch_environments_websocket one_line_world
             (line_then_exit ++ more) in
  exists s,
    session h = Some s
    /\ sent (actions h) = [Tagged (lit "stdout") (lit "line1" ++ [10%N])]
    /\ returncode (proc (conn s)) = Some 0%Z
    /\ tasks s = [(Stdout, Finished); (Stderr, Finished)]
    /\ main s = Serving.
Proof.
  cbv zeta. unfold watch_environments_websocket.
  cbn [one_line_world spawn]. eexists. split; [reflexivity|].
  unfold Watch.run. rewrite fold_left_app.
  set (s1 := fold_left Watch.step line_then_exit _).
  assert (Hfix : forall tn, Watch.step s1 tn = s1).
  { intros [[| |] | | code]; reflexivity. }
  assert (Hrun : fold_left Watch.step more s1 = s1).
  { induction more as [|tn more IH]; [reflexivity|].
    cbn [fold_left]. now rewrite Hfix. }
  unfold actions. cbn [session before]. rewrite Hrun.
  repeat split.
Qed.

(** ** The terminal session *)

Lemma terminal_cleanup_total (c : Conn) :
  exists c',
    Terminal.cleanup c = (c', true) /\ returncode (proc c') <> None.
Proof.
  destruct (returncode (proc c)) as [code|] eqn:H.
  - exists c. unfold Terminal.cleanup. rewrite H. split; congruence.
  - rewrite terminal_cleanup_as_watch by exact H.
    apply watch_cleanup_total.
Qed.

Lemma tasks_three (ts : list (task_id * task_status)) :
  map fst ts = [Stdout; Stderr; Input] ->
  exists a b c, ts = [(Stdout, a); (Stderr, b); (Input, c)].
Proof.
  destruct ts as [|[t1 a] [|[t2 b] [|[t3 c] [|x ts]]]]; try discriminate.
  cbn. intros H. injection H as -> -> ->. eauto.
Qed.

Lemma status_set_status (ts : list (task_id * task_status)) (t : task_id)
    (old new : task_status) :
  status_in ts t = Some old -> status_in (set_status t new ts) t = Some new.
Proof.
  unfold status_in, set_status.
  induction ts as [|[t' st] ts IH]; cbn; [discriminate|].
  destruct (task_eqb t' t) eqn:E; cbn; rewrite E; auto.
Qed.

(** A frame that is not JSON makes [receive_json] raise: the relay is
    over after it. *)
Lemma C3_counterexample :
  ~ relay_ignores
      (RecvRaises (Exception (lit "Expecting value: line 1 column 1 (char 0)")))
      fresh_terminal.
Proof.
  unfold relay_ignores. vm_compute. intros [H _]. discriminate H.
Qed.

(** C3, amended: an inbound message that is a JSON object not tagged as
    a stdin command is ignored, the inbound relay keeps running and
    nothing else in the session changes; a message that does not decode
    or is not a JSON object raises inside the relay, which ends the
    relay. *)
Theorem C3_relay_ignores_untagged_objects (s : Session json)
    (q : list (recv_result json)) :
  status s Input = Some Running ->
  (forall fields, tagged_stdin fields = false ->
     handle_websocket_input (with_inbound (Received (JObject fields) :: q) s)
     = with_inbound q s)
  /\ (forall e,
        status (handle_websocket_input (with_inbound (RecvRaises e :: q) s))
               Input = Some Finished)
  /\ (forall v, is_object v = false ->
        status (handle_websocket_input (with_inbound (Received v :: q) s))
               Input = Some Finished).
Proof.
  intros Hrun. destruct s as [c so se ib ts m].
  unfold status in *. cbn [tasks] in Hrun.
  unfold handle_websocket_input, status.
  cbn [with_inbound tasks inbound conn]. rewrite Hrun.
  split; [|split].
  - intros fields Htag. unfold input_iteration. rewrite Htag. reflexivity.
  - intros e. cbn. now apply status_set_status with (old := Running).
  - intros v Hv. destruct v; try discriminate;
      cbn; now apply status_set_status with (old := Running).
Qed.

Lemma C3_relay_ignores_untagged_objects_witness :
  handle_websocket_input
    (with_inbound
       [Received (JObject [(lit "type", JString (lit "resize"))])]
       fresh_terminal)
  = with_inbound [] fresh_terminal.
Proof.
  destruct (@C3_relay_ignores_untagged_objects fresh_terminal [] eq_refl)
    as [Hobj _].
  apply Hobj. reflexivity.
Defined.

(** *** First to finish wins *)

Lemma fresh_terminal_inv : session_inv [Stdout; Stderr; Input] fresh_terminal.
Proof.
  split; [reflexivity|]. left. split; [reflexivity|].
  intros [| |]; discriminate.
Qed.

(** Once the terminal handler has returned, nothing moves any more. *)
Lemma terminal_ended_fixed (s : Session json) (tn : turn) :
  map fst (tasks s) = [Stdout; Stderr; Input] ->
  ended [Stdout; Stderr; Input] s ->
  Terminal.step s tn = s.
Proof.
  intros Hts (Hm & Hrc & Hset).
  apply tasks_three in Hts as (a & b & c & Hts).
  destruct s as [cn so se ib ts m]. cbn [tasks main conn] in *. subst ts m.
  pose proof (Hset Stdout (or_introl eq_refl)) as Ha.
  pose proof (Hset Stderr (or_intror (or_introl eq_refl))) as Hb.
  pose proof (Hset Input (or_intror (or_intror (or_introl eq_refl)))) as Hc.
  unfold settled, status in Ha, Hb, Hc. cbn in Ha, Hb, Hc.
  destruct tn as [[| |] | | code]; cbn.
  - unfold Terminal.handle_stdout, step_reader. cbn.
    destruct a; try reflexivity. destruct Ha as [Ha | [Ha _]]; discriminate.
  - unfold Terminal.handle_stderr, step_reader. cbn.
    destruct b; try reflexivity. destruct Hb as [Hb | [Hb _]]; discriminate.
  - unfold handle_websocket_input. cbn.
    destruct c; try reflexivity. destruct Hc as [Hc | [Hc _]]; discriminate.
  - reflexivity.
  - unfold process_exits. cbn.
    destruct (returncode (proc cn)); [reflexivity | congruence].
Qed.

Lemma terminal_ended_run (sched : list turn) (s : Session json) :
  map fst (tasks s) = [Stdout; Stderr; Input] ->
  ended [Stdout; Stderr; Input] s ->
  Terminal.run sched s = s.
Proof.
  intros Hts Hend. induction sched as [|tn sched IH]; [reflexivity|].
  cbn [Terminal.run fold_left].
  rewrite terminal_ended_fixed by assumption. exact IH.
Qed.

(** The handler's turn with a finished task: the [finally] block runs and
    the handler returns. *)
Lemma terminal_main_ends (s : Session json) (t : task_id) :
  map fst (tasks s) = [Stdout; Stderr; Input] ->
  serving s ->
  status s t = Some Finished ->
  map fst (tasks (Terminal.step_main s)) = [Stdout; Stderr; Input]
  /\ ended [Stdout; Stderr; Input] (Terminal.step_main s).
Proof.
  intros Hts [Hm Hnc] Hfin.
  apply tasks_three in Hts as (a & b & c & Hts).
  destruct s as [cn so se ib ts m]. cbn [tasks main conn] in *. subst ts m.
  pose proof (Hnc Stdout) as Ha. pose proof (Hnc Stderr) as Hb.
  pose proof (Hnc Input) as Hc.
  unfold status in Ha, Hb, Hc, Hfin. cbn in Ha, Hb, Hc, Hfin.
  unfold Terminal.step_main, Terminal.finally. cbn [main tasks conn].
  destruct (terminal_cleanup_total cn) as (c' & E & Hrc).
  unfold ended, settled, logged.
  destruct t, a, b, c; try congruence; try discriminate Hfin;
    cbn [existsb done snd orb]; rewrite E; cbn;
    (split; [reflexivity|]); (split; [reflexivity|]);
    (split; [exact Hrc|]);
    intros t' [<- | [<- | [<- | []]]]; cbn;
    rewrite ?map_app, ?in_app_iff; cbn; intuition auto.
Qed.

(** A turn of anything but the handler leaves the handler waiting, cancels
    nothing and keeps finished tasks finished. *)
Lemma terminal_task_turn (s : Session json) (tn : turn) :
  tn <> Main ->
  map fst (tasks s) = [Stdout; Stderr; Input] ->
  serving s ->
  map fst (tasks (Terminal.step s tn)) = [Stdout; Stderr; Input]
  /\ serving (Terminal.step s tn)
  /\ forall t, status s t = Some Finished ->
               status (Terminal.step s tn) t = Some Finished.
Proof.
  intros Hname Hts [Hm Hnc].
  apply tasks_three in Hts as (a & b & c & Hts).
  destruct s as [cn so se ib ts m]. cbn [tasks main conn] in *. subst ts m.
  pose proof (Hnc Stdout) as Ha. pose proof (Hnc Stderr) as Hb.
  pose proof (Hnc Input) as Hc.
  unfold status in Ha, Hb, Hc. cbn in Ha, Hb, Hc.
  unfold serving.
  destruct tn as [[| |] | | code]; [| | |congruence|]; cbn [Terminal.step].
  - unfold Terminal.handle_stdout, step_reader. cbn.
    destruct a; try congruence;
      [destruct so as [|ans q]; cbn; [|split_iteration]|];
      cbn; (split; [reflexivity|]); (split; [split; [reflexivity|]|]);
      try (intros [| |]; cbn; congruence).
  - unfold Terminal.handle_stderr, step_reader. cbn.
    destruct b; try congruence;
      [destruct se as [|ans q]; cbn; [|split_iteration]|];
      cbn; (split; [reflexivity|]); (split; [split; [reflexivity|]|]);
      try (intros [| |]; cbn; congruence).
  - unfold handle_websocket_input. cbn.
    destruct c; try congruence;
      [destruct ib as [|ans q]; cbn; [|split_iteration]|];
      cbn; (split; [reflexivity|]); (split; [split; [reflexivity|]|]);
      try (intros [| |]; cbn; congruence).
  - unfold process_exits. cbn.
    destruct (returncode (proc cn)); cbn;
      (split; [reflexivity|]); (split; [split; [reflexivity|]|]);
      try (intros [| |]; cbn; congruence).
Qed.

Lemma turn_eq_dec (a b : turn) : {a = b} + {a <> b}.
Proof. repeat decide equality. Qed.

(** The invariant holds along every run. *)
Lemma terminal_run_inv (sched : list turn) (s : Session json) :
  session_inv [Stdout; Stderr; Input] s ->
  session_inv [Stdout; Stderr; Input] (Terminal.run sched s).
Proof.
  revert s. induction sched as [|tn sched IH]; intros s Hinv; [exact Hinv|].
  cbn [Terminal.run fold_left]. apply IH.
  destruct Hinv as [Hts [Hserv | Hend]].
  - destruct (turn_eq_dec tn Main) as [-> | Hname].
    + cbn [Terminal.step].
      destruct (existsb (fun e => done (snd e)) (tasks s)) eqn:Hd.
      * apply tasks_three in Hts as Hts'. destruct Hts' as (a & b & c & E).
        assert (Hex : exists t, status s t = Some Finished).
        { destruct Hserv as [_ Hnc].
          pose proof (Hnc Stdout) as Ha. pose proof (Hnc Stderr) as Hb.
          pose proof (Hnc Input) as Hc.
          unfold status in *. rewrite E in *. cbn in *.
          destruct a; [| exists Stdout; reflexivity | congruence].
          destruct b; [| exists Stderr; reflexivity | congruence].
          destruct c; [| exists Input; reflexivity | congruence].
          discriminate Hd. }
        destruct Hex as [t Ht].
        destruct (terminal_main_ends t Hts Hserv Ht) as [Hts2 Hend].
        split; [exact Hts2 | right; exact Hend].
      * unfold Terminal.step_main. destruct Hserv as [Hm Hnc].
        rewrite Hm, Hd. split; [exact Hts | left; split; assumption].
    + destruct (terminal_task_turn Hname Hts Hserv) as (Hts2 & Hserv2 & _).
      split; [exact Hts2 | left; exact Hserv2].
  - rewrite terminal_ended_fixed by assumption.
    split; [exact Hts | right; exact Hend].
Qed.




(** ** [parse_environment_list] *)

Lemma lstrip_starts_clean (s : str) : starts_clean (lstrip s) = true.
Proof.
  induction s as [|c s IH]; [reflexivity|]. cbn.
  destruct (isspace c) eqn:E; [exact IH|]. cbn. now rewrite E.
Qed.

Lemma lstrip_clean_id (s : str) : starts_clean s = true -> lstrip s = s.
Proof.
  destruct s as [|c s]; [reflexivity|]. cbn.
  destruct (isspace c); [discriminate | reflexivity].
Qed.

Lemma lstrip_suffix (s : str) : exists w, s = w ++ lstrip s.
Proof.
  induction s as [|c s [w IH]]; [now exists []|]. cbn.
  destruct (isspace c).
  - exists (c :: w). cbn. now rewrite <- IH.
  - now exists [].
Qed.

Lemma starts_clean_app_l (x y : str) :
  starts_clean (x ++ y) = true -> starts_clean x = true.
Proof. destruct x; [reflexivity | exact (fun H => H)]. Qed.

Lemma starts_clean_app (x y : str) :
  x <> [] -> starts_clean x = true -> starts_clean (x ++ y) = true.
Proof. destruct x; [congruence | intros _ H; exact H]. Qed.

Lemma trimmed_strip_id (s : str) : trimmed s = true -> strip s = s.
Proof.
  unfold trimmed, strip, rstrip. rewrite andb_true_iff. intros [Hl Hr].
  rewrite (lstrip_clean_id s Hl), (lstrip_clean_id (rev s) Hr).
  apply rev_involutive.
Qed.

Lemma strip_trimmed (s : str) : trimmed (strip s) = true.
Proof.
  unfold trimmed, strip, rstrip. rewrite rev_involutive.
  rewrite lstrip_starts_clean, andb_true_r.
  destruct (lstrip_suffix (rev (lstrip s))) as [w Hw].
  destruct (lstrip (rev (lstrip s))) as [|c v] eqn:Hv; [reflexivity|].
  assert (Hu : lstrip s = rev (c :: v) ++ rev w).
  { rewrite <- rev_app_distr, <- Hw. now rewrite rev_involutive. }
  apply starts_clean_app_l with (y := rev w). rewrite <- Hu.
  apply lstrip_starts_clean.
Qed.

(** Between separators nothing starts or ends with whitespace. *)
Lemma re_split_go_trimmed (s cur run : str) :
  starts_clean cur = true ->
  starts_clean (rev cur) = true ->
  forallb isspace run = true ->
  (cur = [] -> run = [] /\ starts_clean s = true) ->
  starts_clean (rev s ++ run) = true ->
  Forall (fun f => trimmed f = true) (re_split_go cur run s).
Proof.
  revert cur run. induction s as [|c s IH]; intros cur run Ha Hb Hc Hd He.
  - cbn in He |- *.
    assert (run = []) as ->.
    { destruct run as [|x run]; [reflexivity|]. cbn in Hc, He.
      destruct (isspace x); discriminate. }
    cbn. constructor; [|constructor].
    unfold trimmed. now rewrite rev_involutive, Hb, Ha.
  - cbn [re_split_go].
    assert (He' : starts_clean (rev s ++ c :: run) = true).
    { cbn [rev] in He. now rewrite <- app_assoc in He. }
    destruct (isspace c) eqn:Ec.
    + apply IH; try assumption.
      * cbn. now rewrite Ec.
      * intros ->. destruct (Hd eq_refl) as [_ H]. cbn in H.
        rewrite Ec in H. discriminate.
    + destruct (2 <=? List.length run)%nat.
      * constructor.
        -- unfold trimmed. now rewrite rev_involutive, Hb, Ha.
        -- apply IH; try reflexivity.
           ++ cbn. now rewrite Ec.
           ++ cbn. now rewrite Ec.
           ++ intros H; discriminate H.
           ++ rewrite app_nil_r. now apply starts_clean_app_l in He'.
      * apply IH; try reflexivity.
        -- cbn. now rewrite Ec.
        -- cbn [rev]. destruct cur as [|x cur].
           ++ destruct (Hd eq_refl) as [-> _]. cbn. now rewrite Ec.
           ++ rewrite rev_app_distr, <- app_assoc.
              apply starts_clean_app; [|exact Hb].
              cbn. intros H. now apply app_eq_nil in H as [_ H].
        -- intros H; discriminate H.
        -- rewrite app_nil_r. now apply starts_clean_app_l in He'.
Qed.

Lemma columns_trimmed (row : str) :
  Forall (fun f => trimmed f = true) (columns row).
Proof.
  unfold columns, re_split_ws2.
  pose proof (strip_trimmed row) as H. unfold trimmed in H.
  apply andb_true_iff in H as [Hl Hr].
  apply re_split_go_trimmed; try reflexivity.
  - intros _. now split.
  - now rewrite app_nil_r.
Qed.

Lemma column_strip_id (row : str) (k : nat) :
  strip (nth k (columns row) []) = nth k (columns row) [].
Proof.
  apply trimmed_strip_id.
  destruct (Nat.lt_ge_cases k (List.length (columns row))) as [Hk | Hk].
  - pose proof (columns_trimmed row) as H. rewrite Forall_forall in H.
    apply H. now apply nth_In.
  - now rewrite nth_overflow.
Qed.

(** One turn of the second loop adds the row's environment, if it has
    one. *)
Lemma parse_line_row (acc : list Environment) (raw : str) :
  parse_line acc raw = acc ++ environments_of [raw].
Proof.
  unfold parse_line, environments_of. cbn [filter map].
  destruct (strip raw) as [|c line] eqn:Hs; cbn [is_empty negb].
  - now rewrite app_nil_r.
  - cbn [map filter]. unfold columns at 1. rewrite Hs.
    destruct (4 <=? List.length (re_split_ws2 (c :: line)))%nat;
      cbn [map]; [|now rewrite app_nil_r].
    unfold environment_of.
    pose proof (column_strip_id raw) as H. unfold columns in *.
    rewrite Hs in *. now rewrite !H.
Qed.

Lemma environments_of_cons (raw : str) (rows : list str) :
  environments_of (raw :: rows) = environments_of [raw] ++ environments_of rows.
Proof.
  unfold environments_of. cbn [filter].
  destruct (negb (is_empty (strip raw))); cbn [map filter app];
    [|reflexivity].
  destruct (4 <=? List.length (columns raw))%nat; reflexivity.
Qed.

Lemma parse_loop (rows : list str) (acc : list Environment) :
  fold_left parse_line rows acc = acc ++ environments_of rows.
Proof.
  revert acc. induction rows as [|raw rows IH]; intros acc; cbn [fold_left].
  - unfold environments_of. cbn. now rewrite app_nil_r.
  - rewrite IH, parse_line_row, (environments_of_cons raw rows).
    symmetry. apply app_assoc.
Qed.

Lemma find_start_index_found (lines : list str) (i : nat) :
  existsb is_header lines = true -> (i < find_start_index i lines)%nat.
Proof.
  revert i. induction lines as [|l rest IH]; intros i;
    cbn [find_start_index existsb]; [discriminate|].
  unfold is_header at 1. destruct (startswith (strip l) (lit "ID"));
    cbn [orb].
  - lia.
  - intros H. specialize (IH (S i) H). lia.
Qed.

Lemma find_start_index_none (lines : list str) (i : nat) :
  existsb is_header lines = false -> find_start_index i lines = 0%nat.
Proof.
  revert i. induction lines as [|l rest IH]; intros i;
    cbn [find_start_index existsb]; [reflexivity|].
  unfold is_header at 1. destruct (startswith (strip l) (lit "ID"));
    cbn [orb].
  - discriminate.
  - apply IH.
Qed.

(** The first loop finds where the data rows begin. *)
Lemma skipn_find_start_index (lines : list str) (i : nat) :
  skipn (find_start_index i lines - i) lines = data_rows lines.
Proof.
  revert i. induction lines as [|l rest IH]; intros i.
  - cbn. now destruct (0 - i)%nat.
  - unfold data_rows. cbn [find_start_index existsb below_header].
    unfold is_header at 1 3.
    destruct (startswith (strip l) (lit "ID")) eqn:Eh; cbn [orb].
    + replace (S i - i)%nat with 1%nat by lia. reflexivity.
    + specialize (IH (S i)). unfold data_rows in IH.
      destruct (existsb is_header rest) eqn:Ex.
      * pose proof (find_start_index_found rest (S i) Ex) as Hlt.
        replace (find_start_index (S i) rest - i)%nat
          with (S (find_start_index (S i) rest - S i)) by lia.
        exact IH.
      * rewrite (find_start_index_none rest (S i) Ex). reflexivity.
Qed.

(** A row above the header row is skipped with it. *)
Lemma C9_counterexample : ~ parses_all_but_header table_with_row_above_header.
Proof.
  unfold parses_all_but_header. vm_compute. discriminate.
Qed.

(** C9, amended: for every text output of the list subcommand,
    [parse_environment_list] skips every row up to and including the
    first row that begins with "ID" (no row when there is none, and only
    the header when it is the first row), splits each remaining non-empty
    row on runs of two or more whitespace characters, drops every row
    with fewer than 4 columns, and returns one Environment per remaining
    row whose id, title, created and updated are that row's first four
    columns in order. *)
Theorem C9_parse_environment_list (output : str) :
  parse_environment_list output
  = environments_of (data_rows (split_lines (strip output))).
Proof.
  unfold parse_environment_list. rewrite parse_loop. cbn [app].
  now rewrite <- (skipn_find_start_index _ 0), Nat.sub_0_r.
Qed.

(** When the header is the first row, it is the only row skipped; when
    no row begins with "ID", none is. *)
Lemma data_rows_header_first (header : str) (rows : list str) :
  is_header header = true -> data_rows (header :: rows) = rows.
Proof. intros H. unfold data_rows. cbn. now rewrite H. Qed.

Lemma data_rows_no_header (rows : list str) :
  existsb is_header rows = false -> data_rows rows = rows.
Proof. intros H. unfold data_rows. now rewrite H. Qed.

(** ** The UTF-8 codec *)

Lemma split64 (n : N) :
  exists q r, (n / 64 = q /\ n mod 64 = r /\ n = 64 * q + r /\ r < 64)%N.
Proof.
  exists (n / 64)%N, (n mod 64)%N. repeat split.
  - apply N.div_mod. discriminate.
  - apply N.mod_lt. discriminate.
Qed.

Lemma utf8_decode_1 (b0 : N) (r : list N) :
  (b0 <? 128)%N = true ->
  utf8_decode (b0 :: r) = option_map (cons b0) (utf8_decode r).
Proof. intros H. cbn [utf8_decode]. now rewrite H. Qed.

Lemma utf8_decode_2 (b0 b1 : N) (r : list N) :
  (b0 <? 128)%N = false -> between 194 223 b0 = true -> is_cont b1 = true ->
  utf8_decode (b0 :: b1 :: r)
  = option_map (cons ((b0 - 192) * 64 + (b1 - 128))%N) (utf8_decode r).
Proof. intros H0 H1 H2. cbn [utf8_decode]. now rewrite H0, H1, H2. Qed.

Lemma utf8_decode_3 (b0 b1 b2 : N) (r : list N) :
  (b0 <? 128)%N = false -> between 194 223 b0 = false ->
  between 224 239 b0 = true -> second3 b0 b1 = true -> is_cont b2 = true ->
  utf8_decode (b0 :: b1 :: b2 :: r)
  = option_map
      (cons ((b0 - 224) * 4096 + (b1 - 128) * 64 + (b2 - 128))%N)
      (utf8_decode r).
Proof.
  intros H0 H1 H2 H3 H4. cbn [utf8_decode].
  now rewrite H0, H1, H2, H3, H4.
Qed.

Lemma utf8_decode_4 (b0 b1 b2 b3 : N) (r : list N) :
  (b0 <? 128)%N = false -> between 194 223 b0 = false ->
  between 224 239 b0 = false -> between 240 244 b0 = true ->
  second4 b0 b1 = true -> is_cont b2 = true -> is_cont b3 = true ->
  utf8_decode (b0 :: b1 :: b2 :: b3 :: r)
  = option_map
      (cons ((b0 - 240) * 262144 + (b1 - 128) * 4096
             + (b2 - 128) * 64 + (b3 - 128))%N)
      (utf8_decode r).
Proof.
  intros H0 H1 H2 H3 H4 H5 H6. cbn [utf8_decode].
  now rewrite H0, H1, H2, H3, H4, H5, H6.
Qed.

Lemma some_eq {A : Type} (a b : A) : Some a = Some b -> a = b.
Proof. congruence. Qed.

Lemma utf8_decode_encode_char (c : N) (bs rest : list N) :
  utf8_encode_char c = Some bs ->
  utf8_decode (bs ++ rest) = option_map (cons c) (utf8_decode rest).
Proof.
  destruct (split64 c) as (q1 & r1 & D1 & M1 & E1 & B1).
  destruct (split64 q1) as (q2 & r2 & D2 & M2 & E2 & B2).
  destruct (split64 q2) as (q3 & r3 & D3 & M3 & E3 & B3).
  assert (D4096 : (c / 4096 = q2)%N).
  { change 4096%N with (64 * 64)%N. now rewrite <- N.Div0.div_div, D1. }
  assert (D262144 : (c / 262144 = q3)%N).
  { change 262144%N with (4096 * 64)%N.
    now rewrite <- N.Div0.div_div, D4096. }
  unfold utf8_encode_char, between.
  rewrite ?D262144, ?D4096, ?D1, ?M1, ?D2, ?M2, ?D3, ?M3.
  clear D1 M1 D2 M2 D3 M3 D4096 D262144.
  destruct (N.ltb_spec c 128) as [H1 | H1].
  { intros E. apply some_eq in E. subst bs. apply utf8_decode_1. range_test. }
  destruct (N.ltb_spec c 2048) as [H2 | H2].
  { intros E. apply some_eq in E. subst bs.
    change ([(192 + q1)%N; (128 + r1)%N] ++ rest)
      with ((192 + q1)%N :: (128 + r1)%N :: rest).
    rewrite utf8_decode_2 by range_test. do 2 f_equal. lia. }
  destruct (N.ltb_spec c 65536) as [H3 | H3].
  { destruct (N.leb_spec 55296 c) as [Hs1 | Hs1];
      destruct (N.leb_spec c 57343) as [Hs2 | Hs2]; cbn [andb];
      try discriminate;
      intros E; apply some_eq in E; subst bs;
      change ([(224 + q2)%N; (128 + r2)%N; (128 + r1)%N] ++ rest)
        with ((224 + q2)%N :: (128 + r2)%N :: (128 + r1)%N :: rest);
      rewrite utf8_decode_3 by range_test; do 2 f_equal; lia. }
  destruct (N.ltb_spec c 1114112) as [H4 | H4]; [|discriminate].
  intros E. apply some_eq in E. subst bs.
  change ([(240 + q3)%N; (128 + r3)%N; (128 + r2)%N; (128 + r1)%N] ++ rest)
    with ((240 + q3)%N :: (128 + r3)%N :: (128 + r2)%N :: (128 + r1)%N
          :: rest).
  rewrite utf8_decode_4 by range_test. do 2 f_equal. lia.
Qed.

(** Decoding undoes encoding: what [str.encode] produces, the strict
    decoder reads back. *)
Lemma utf8_decode_encode (s : str) (bs : list N) :
  utf8_encode s = Some bs -> utf8_decode bs = Some s.
Proof.
  revert bs. induction s as [|c s IH]; intros bs; cbn [utf8_encode].
  - intros E. apply some_eq in E. now subst bs.
  - destruct (utf8_encode_char c) as [cb|] eqn:Ec; [|discriminate].
    destruct (utf8_encode s) as [rest|]; [|discriminate].
    intros E. apply some_eq in E. subst bs.
    rewrite (utf8_decode_encode_char c rest Ec), (IH rest eq_refl).
    reflexivity.
Qed.

Example decode_euro : decode [xe2; x82; xac] = Some [8364%N].
Proof. reflexivity. Qed.

Example decode_rejects_lone_ff : decode [xff] = None.
Proof. reflexivity. Qed.

Example decode_rejects_overlong : decode [xc0; x80] = None.
Proof. reflexivity. Qed.

Example decode_rejects_surrogate : decode [xed; xa0; x80] = None.
Proof. reflexivity. Qed.

Example decode_rejects_cut_sequence : decode [xe2; x82] = None.
Proof. reflexivity. Qed.

Lemma byte_of_N_to_N (n : N) : (n < 256)%N -> Byte.to_N (byte_of_N n) = n.
Proof.
  intros H. unfold byte_of_N.
  destruct (Byte.of_N n) as [b|] eqn:E.
  - now apply Byte.to_of_N.
  - apply Byte.of_N_None_iff in E. lia.
Qed.

Lemma utf8_encode_char_bytes (c : N) (bs : list N) :
  utf8_encode_char c = Some bs -> Forall (fun n => (n < 256)%N) bs.
Proof.
  destruct (split64 c) as (q1 & r1 & D1 & M1 & E1 & B1).
  destruct (split64 q1) as (q2 & r2 & D2 & M2 & E2 & B2).
  destruct (split64 q2) as (q3 & r3 & D3 & M3 & E3 & B3).
  assert (D4096 : (c / 4096 = q2)%N).
  { change 4096%N with (64 * 64)%N. now rewrite <- N.Div0.div_div, D1. }
  assert (D262144 : (c / 262144 = q3)%N).
  { change 262144%N with (4096 * 64)%N.
    now rewrite <- N.Div0.div_div, D4096. }
  unfold utf8_encode_char, between.
  rewrite ?D262144, ?D4096, ?D1, ?M1, ?D2, ?M2, ?D3, ?M3.
  clear D1 M1 D2 M2 D3 M3 D4096 D262144.
  split_tests; try discriminate;
    intros E; apply some_eq in E; subst bs;
    repeat (constructor; [lia|]); constructor.
Qed.

Lemma utf8_encode_bytes (s : str) (bs : list N) :
  utf8_encode s = Some bs -> Forall (fun n => (n < 256)%N) bs.
Proof.
  revert bs. induction s as [|c s IH]; intros bs; cbn [utf8_encode].
  - intros E. apply some_eq in E. subst bs. constructor.
  - destruct (utf8_encode_char c) as [cb|] eqn:Ec; [|discriminate].
    destruct (utf8_encode s) as [rest|]; [|discriminate].
    intros E. apply some_eq in E. subst bs.
    apply Forall_app. split; [now apply utf8_encode_char_bytes with c | auto].
Qed.

(** What [str.encode("utf-8")] gives, [bytes.decode("utf-8")] reads
    back. *)
Lemma decode_encode (s : str) (b : bytes) :
  encode s = Some b -> decode b = Some s.
Proof.
  unfold encode, decode.
  destruct (utf8_encode s) as [bs|] eqn:E; [|discriminate].
  cbn [option_map]. intros H. apply some_eq in H. subst b.
  rewrite map_map.
  rewrite (map_ext_Forall _ (fun n => n)).
  - rewrite map_id. now apply utf8_decode_encode.
  - eapply Forall_impl; [|exact (utf8_encode_bytes s E)].
    intros n Hn. now apply byte_of_N_to_N.
Qed.

(** * Further properties *)

(** ** The HTTP routes, end to end *)

Lemma str_eqb_eq (a b : str) : str_eqb a b = true <-> a = b.
Proof.
  unfold str_eqb. destruct (list_eq_dec N.eq_dec a b); split; congruence.
Qed.

Lemma valid_action_test (act : str) :
  existsb (str_eqb act) valid_actions = true <-> In act valid_actions.
Proof.
  rewrite existsb_exists. split.
  - intros (x & Hin & E). apply str_eqb_eq in E. now subst.
  - intros H. exists act. split; [exact H | now apply str_eqb_eq].
Qed.

(** A command awaited from a route gives its triple, or raises what the
    [print] of its line raised. *)
Lemma await_command_cases (rt : Runtime) (args : list str) :
  (exists stdout stderr rc,
      await_command rt args = Returns (stdout, stderr, rc))
  \/ (exists e, await_command rt args = Raises (Unhandled e)
                /\ print rt (command_line rt args None) = Raises e).
Proof.
  unfold await_command.
  destruct (print rt (command_line rt args None)) as [u | e] eqn:Hp.
  - left.
    destruct (run_container_use_command_printed rt args None Hp)
      as [[[so se] rc] E].
    rewrite E. cbn. eauto.
  - right. exists e.
    rewrite (run_container_use_command_print_raises rt args None Hp).
    split; reflexivity.
Qed.

Lemma command_failed_http {A} (environment_id failure stderr stdout : str) :
  exists h,
    @command_failed A environment_id failure stderr stdout = Raises (Http h)
    /\ (status_code h = 404%Z \/ status_code h = 500%Z)
    /\ detail_detail h = Some (error_output stderr stdout).
Proof.
  unfold command_failed, raise_http.
  destruct (is_not_found _); eexists; (split; [reflexivity|]); cbn; auto.
Qed.

(** X1: an action request is answered with 400 exactly when the action
    or the environment identifier is empty or the action is not one of
    apply, checkout, delete and merge; the answer is then the same
    whatever the tool would do, and a logs or diff request with an empty
    identifier is answered with 400 likewise. *)
Theorem X1_invalid_input_is_400 (rt : Runtime) (request : ActionRequest) :
  (status_of (execute_action rt request) = 400%Z
   <-> (req_action request = [] \/ req_environment_id request = []
        \/ ~ In (req_action request) valid_actions))
  /\ (status_of (execute_action rt request) = 400%Z ->
      forall rt', execute_action rt' request = execute_action rt request)
  /\ status_of (get_environment_logs rt []) = 400%Z
  /\ status_of (get_environment_diff rt []) = 400%Z.
Proof.
  destruct request as [act eid]. cbn [req_action req_environment_id].
  assert (Hcases :
    (act = [] \/ eid = [] \/ ~ In act valid_actions)
    \/ (is_empty act = false /\ is_empty eid = false
        /\ existsb (str_eqb act) valid_actions = true)).
  { destruct act as [|a act]; [left; auto|].
    destruct eid as [|e eid]; [left; auto|].
    destruct (existsb (str_eqb (a :: act)) valid_actions) eqn:E.
    - right. auto.
    - left. right. right. rewrite <- valid_action_test. congruence. }
  assert (Hbad : (act = [] \/ eid = [] \/ ~ In act valid_actions) ->
                 forall r, status_of (execute_action r {| req_action := act;
                            req_environment_id := eid |}) = 400%Z
                           /\ execute_action r {| req_action := act;
                                req_environment_id := eid |}
                              = execute_action rt {| req_action := act;
                                  req_environment_id := eid |}).
  { intros H r. unfold execute_action.
    cbn [req_action req_environment_id].
    destruct act as [|a act]; [split; reflexivity|].
    destruct eid as [|e eid]; [split; reflexivity|].
    cbn [is_empty orb].
    destruct (existsb (str_eqb (a :: act)) valid_actions) eqn:E.
    - apply valid_action_test in E.
      destruct H as [H | [H | H]]; try discriminate. contradiction.
    - split; reflexivity. }
  repeat split; try reflexivity.
  - intros H400. destruct Hcases as [H | (Ha & He & Hv)]; [exact H|].
    exfalso. revert H400. unfold execute_action.
    cbn [req_action req_environment_id]. rewrite Ha, He, Hv.
    cbn [orb negb]. unfold bind.
    destruct (await_command_cases rt [act; eid])
      as [(so & se & rc & ->) | (e & -> & _)]; [|cbn; discriminate].
    destruct (negb (rc =? 0)%Z).
    + match goal with
      | |- context [command_failed ?i ?f ?e ?o] =>
          destruct (@command_failed_http ActionResponse i f e o)
            as (h & -> & [Hs | Hs] & _)
      end; cbn; rewrite Hs; discriminate.
    + cbn. discriminate.
  - intros H. apply (Hbad H rt).
  - intros H400 rt'. destruct Hcases as [H | (Ha & He & Hv)].
    + apply (Hbad H rt').
    + exfalso. revert H400. unfold execute_action.
      cbn [req_action req_environment_id]. rewrite Ha, He, Hv.
      cbn [orb negb]. unfold bind.
      destruct (await_command_cases rt [act; eid])
        as [(so & se & rc & ->) | (e & -> & _)]; [|cbn; discriminate].
      destruct (negb (rc =? 0)%Z).
      * match goal with
        | |- context [command_failed ?i ?f ?e ?o] =>
            destruct (@command_failed_http ActionResponse i f e o)
              as (h & -> & [Hs | Hs] & _)
        end; cbn; rewrite Hs; discriminate.
      * cbn. discriminate.
Qed.

Lemma X1_invalid_input_is_400_witness :
  status_of (execute_action (tool_printing [] [] None)
               {| req_action := lit "rm";
                  req_environment_id := lit "env-7" |}) = 400%Z.
Proof.
  destruct (X1_invalid_input_is_400 (tool_printing [] [] None)
              {| req_action := lit "rm";
                 req_environment_id := lit "env-7" |})
    as ([_ H] & _).
  apply H. right. right. cbn.
  intros [E | [E | [E | [E | []]]]]; discriminate E.
Defined.








(** The tool cannot be started: every spawn raises [e]. *)
Lemma await_command_cannot_start (rt : Runtime) (e : exn) (args : list str) :
  (forall line, print rt line = Returns tt) ->
  (forall cmd cwd, create_subprocess_exec rt cmd cwd = Raises e) ->
  await_command rt args = Returns ([], exn_str e, 1%Z).
Proof.
  intros Hp H. unfold await_command, run_container_use_command, try_except, bind.
  now rewrite Hp, H.
Qed.

Lemma error_output_only_stderr (stderr : str) : error_output stderr [] = stderr.
Proof. now destruct stderr. Qed.

(** X3: when the command line is printed and the tool cannot be started,
    because [create_subprocess_exec] raises [e], the list route answers 500 with
    [str(e)] as detail ("Unknown error" when that is empty), and the
    logs, diff and action routes answer 404 when [str(e)] contains "not
    found" or "does not exist" in any letter case and 500 otherwise, with
    [str(e)] as detail. *)
Theorem X3_tool_cannot_start (rt : Runtime) (e : exn)
    (environment_id act : str) :
  (forall line, print rt line = Returns tt) ->
  (forall cmd cwd, create_subprocess_exec rt cmd cwd = Raises e) ->
  environment_id <> [] ->
  In act valid_actions ->
  let verdict {A} (r : route A) :=
    exists h, r = Raises (Http h)
              /\ detail_detail h = Some (exn_str e)
              /\ (status_code h = 404%Z <-> mentions_not_found (exn_str e))
              /\ (status_code h = 500%Z <-> ~ mentions_not_found (exn_str e)) in
  list_environments rt
  = raise_http 500 (lit "Failed to run 'container-use list'")
      (Some (match exn_str e with
             | [] => lit "Unknown error"
             | _ :: _ => exn_str e
             end))
  /\ verdict (get_environment_logs rt environment_id)
  /\ verdict (get_environment_diff rt environment_id)
  /\ verdict (execute_action rt {| req_action := act;
                                   req_environment_id := environment_id |}).
Proof.
  intros Hprint Hspawn Hid Hact. cbv zeta.
  destruct environment_id as [|c eid]; [congruence|].
  destruct (valid_action_accepted Hact) as [Hne Hok].
  assert (Hfail : forall A i f,
    exists h, @command_failed A i f (exn_str e) [] = Raises (Http h)
              /\ detail_detail h = Some (exn_str e)
              /\ (status_code h = 404%Z <-> mentions_not_found (exn_str e))
              /\ (status_code h = 500%Z
                  <-> ~ mentions_not_found (exn_str e))).
  { intros A i f.
    destruct (@command_failed_http A i f (exn_str e) []) as (h & E & _ & Hd).
    pose proof (@command_failed_status A i f (exn_str e) []) as Hs.
    cbv zeta in Hs. rewrite E in Hs. cbn [status_of] in Hs.
    rewrite error_output_only_stderr in Hs, Hd.
    exists h. tauto. }
  repeat split.
  - unfold list_environments, bind.
    now rewrite (@await_command_cannot_start rt e _ Hprint Hspawn).
  - unfold get_environment_logs, bind.
    rewrite (@await_command_cannot_start rt e _ Hprint Hspawn). cbn [Z.eqb negb].
    apply Hfail.
  - unfold get_environment_diff, bind.
    rewrite (@await_command_cannot_start rt e _ Hprint Hspawn). cbn [Z.eqb negb].
    apply Hfail.
  - unfold execute_action, bind. cbn [req_action req_environment_id].
    rewrite Hne, Hok. cbn [is_empty orb negb].
    rewrite (@await_command_cannot_start rt e _ Hprint Hspawn). cbn [Z.eqb negb].
    apply Hfail.
Qed.

Lemma X3_tool_cannot_start_witness :
  exists h,
    get_environment_logs missing_tool (lit "env-7") = Raises (Http h)
    /\ detail_detail h = Some (exn_str no_such_file)
    /\ (status_code h = 404%Z <-> mentions_not_found (exn_str no_such_file))
    /\ (status_code h = 500%Z
        <-> ~ mentions_not_found (exn_str no_such_file)).
Proof.
  destruct (@X3_tool_cannot_start missing_tool no_such_file (lit "env-7")
              (lit "apply")) as (_ & H & _).
  - reflexivity.
  - reflexivity.
  - discriminate.
  - cbn. auto.
  - exact H.
Defined.

(** ** Splitting and joining *)

Lemma join_cons (sep x y : str) (rest : list str) :
  join sep (x :: y :: rest) = x ++ sep ++ join sep (y :: rest).
Proof. reflexivity. Qed.

Lemma split_on_piece (sep : N) (x cur rest : str) :
  existsb (N.eqb sep) x = false ->
  split_on sep cur (x ++ rest) = split_on sep (rev x ++ cur) rest.
Proof.
  revert cur. induction x as [|c x IH]; intros cur H; [reflexivity|].
  cbn in H. apply orb_false_iff in H as [Hc Hx].
  cbn [app split_on]. rewrite N.eqb_sym, Hc, IH by exact Hx.
  cbn [rev]. now rewrite <- app_assoc.
Qed.

(** Splitting on a separator undoes joining with it, for pieces that do
    not contain it. *)
Lemma split_on_join (sep : N) (items : list str) :
  items <> [] ->
  Forall (fun i => existsb (N.eqb sep) i = false) items ->
  split_on sep [] (join [sep] items) = items.
Proof.
  induction items as [|x items IH]; [congruence|]. intros _ H.
  inversion H as [|? ? Hx Hrest]; subst.
  destruct items as [|y items].
  - cbn [join]. rewrite <- (app_nil_r x) at 1.
    rewrite split_on_piece by exact Hx. cbn [split_on].
    now rewrite app_nil_r, rev_involutive.
  - rewrite join_cons, split_on_piece by exact Hx.
    cbn [app split_on]. rewrite N.eqb_refl, app_nil_r, rev_involutive.
    f_equal. apply IH; [discriminate | exact Hrest].
Qed.

Lemma single_spaced_tail (c : N) (s : str) :
  single_spaced (c :: s) = true -> single_spaced s = true.
Proof.
  destruct s as [|d s]; [reflexivity|]. cbn [single_spaced].
  rewrite andb_true_iff. tauto.
Qed.

(** Reading through a column: its characters join the piece at hand.
    [run] is at most the one whitespace character just passed. *)
Lemma re_split_go_column (f cur run rest : str) :
  (List.length run <= 1)%nat ->
  forallb isspace run = true ->
  single_spaced (rev run ++ f) = true ->
  starts_clean (rev f) = true ->
  (f = [] -> run = []) ->
  re_split_go cur run (f ++ rest) = re_split_go (rev f ++ run ++ cur) [] rest.
Proof.
  revert cur run. induction f as [|c f IH]; intros cur run Hlen Hws Hss Hend He.
  - rewrite (He eq_refl). reflexivity.
  - cbn [app re_split_go]. destruct (isspace c) eqn:Ec.
    + assert (run = []) as ->.
      { destruct run as [|x [|y run]]; [reflexivity | | cbn in Hlen; lia].
        cbn in Hws, Hss. rewrite andb_true_r in Hws.
        rewrite Hws, Ec in Hss. discriminate. }
      assert (Hf : f <> []).
      { intros ->. cbn in Hend. rewrite Ec in Hend. discriminate. }
      rewrite IH.
      * cbn [rev app]. now rewrite <- !app_assoc.
      * cbn. lia.
      * cbn. now rewrite Ec.
      * exact Hss.
      * cbn [rev] in Hend. destruct (rev f) eqn:Er; [|exact Hend].
        apply (f_equal (@rev N)) in Er. rewrite rev_involutive in Er.
        contradiction.
      * intros E. contradiction.
    + assert (Hrun : (2 <=? List.length run)%nat = false).
      { apply Nat.leb_gt. lia. }
      rewrite Hrun, IH.
      * cbn [rev app]. now rewrite <- !app_assoc.
      * cbn. lia.
      * reflexivity.
      * cbn [rev app].
        assert (Hcf : single_spaced (c :: f) = true).
        { destruct run as [|x [|y run]]; [exact Hss | | cbn in Hlen; lia].
          cbn [rev app] in Hss. now apply single_spaced_tail in Hss. }
        now apply single_spaced_tail in Hcf.
      * cbn [rev] in Hend. destruct f as [|d f]; [reflexivity|].
        apply starts_clean_app_l with (y := [c]). exact Hend.
      * reflexivity.
Qed.

(** Two spaces before a column close the piece at hand. *)
Lemma re_split_go_separator (cur f rest : str) :
  f <> [] -> starts_clean f = true ->
  re_split_go cur [] (lit "  " ++ f ++ rest)
  = rev cur :: re_split_go [] [] (f ++ rest).
Proof.
  intros Hne Hc. destruct f as [|c f]; [congruence|].
  cbn in Hc. apply negb_true_iff in Hc.
  cbn [lit list_ascii_of_string map app re_split_go].
  change (isspace (N_of_ascii " "%char)) with true. cbv iota.
  rewrite Hc. cbn [List.length Nat.leb]. reflexivity.
Qed.

Lemma column_text_parts (f : str) :
  column_text f = true ->
  f <> [] /\ starts_clean f = true /\ starts_clean (rev f) = true
  /\ single_spaced f = true /\ existsb (N.eqb 10) f = false.
Proof.
  unfold column_text, trimmed. rewrite !andb_true_iff, !negb_true_iff.
  intros [[[Hne [Hs He]] Hss] Hnl]. repeat split; try assumption.
  intros ->. discriminate.
Qed.

(** Splitting a row undoes joining its columns with two spaces. *)
Lemma re_split_join (fields : list str) :
  fields <> [] ->
  Forall (fun f => column_text f = true) fields ->
  re_split_ws2 (join (lit "  ") fields) = fields.
Proof.
  unfold re_split_ws2.
  induction fields as [|f fields IH]; [congruence|]. intros _ H.
  inversion H as [|? ? Hf Hrest]; subst.
  apply column_text_parts in Hf as (Hne & Hs & He & Hss & _).
  destruct fields as [|g fields].
  - cbn [join]. rewrite <- (app_nil_r f) at 1.
    rewrite re_split_go_column
      by first [assumption | reflexivity | cbn; lia
               | intros E; contradiction].
    cbn. now rewrite !app_nil_r, rev_involutive.
  - rewrite join_cons, re_split_go_column
      by first [assumption | reflexivity | cbn; lia
               | intros E; contradiction].
    cbn [app]. rewrite app_nil_r.
    inversion Hrest as [|? ? Hg Hrest']; subst.
    pose proof (column_text_parts _ Hg) as (Hgne & Hgs & _).
    assert (Hj : join (lit "  ") (g :: fields)
                 = g ++ match fields with
                        | [] => []
                        | _ :: _ => lit "  " ++ join (lit "  ") fields
                        end).
    { destruct fields; [now rewrite app_nil_r | reflexivity]. }
    rewrite Hj at 1. rewrite re_split_go_separator by assumption.
    rewrite rev_involutive. f_equal. rewrite <- Hj.
    apply IH; [discriminate | exact Hrest].
Qed.

(** ** [parse_environment_list]: what comes back *)

Lemma parse_environment_list_rows (output : str) :
  parse_environment_list output
  = environments_of (data_rows (split_lines (strip output))).
Proof.
  unfold parse_environment_list. rewrite parse_loop. cbn [app].
  now rewrite <- (skipn_find_start_index _ 0), Nat.sub_0_r.
Qed.

Lemma re_split_go_nonempty (s cur run : str) :
  (cur = [] -> run = [] /\ starts_clean s = true /\ s <> []) ->
  forallb isspace run = true ->
  starts_clean (rev s ++ run) = true ->
  Forall (fun f => f <> []) (re_split_go cur run s).
Proof.
  revert cur run. induction s as [|c s IH]; intros cur run Hcur Hws Hend.
  - assert (run = []) as ->.
    { destruct run as [|x run]; [reflexivity|]. cbn in Hws, Hend.
      destruct (isspace x); discriminate. }
    cbn. constructor; [|constructor].
    intros E. apply (f_equal (@rev N)) in E. rewrite rev_involutive in E.
    cbn in E. destruct (Hcur E) as (_ & _ & H). congruence.
  - cbn [re_split_go].
    assert (Hend' : starts_clean (rev s ++ c :: run) = true).
    { cbn [rev] in Hend. now rewrite <- app_assoc in Hend. }
    destruct (isspace c) eqn:Ec.
    + apply IH.
      * intros E. destruct (Hcur E) as (_ & H & _). cbn in H.
        rewrite Ec in H. discriminate.
      * cbn. now rewrite Ec.
      * exact Hend'.
    + destruct (2 <=? List.length run)%nat eqn:Hlen.
      * constructor.
        -- intros E. apply (f_equal (@rev N)) in E.
           rewrite rev_involutive in E. cbn in E.
           destruct (Hcur E) as (-> & _). discriminate Hlen.
        -- apply IH; [discriminate | reflexivity|].
           rewrite app_nil_r. now apply starts_clean_app_l in Hend'.
      * apply IH; [discriminate | reflexivity|].
        rewrite app_nil_r. now apply starts_clean_app_l in Hend'.
Qed.

Lemma columns_nonempty (row : str) :
  strip row <> [] -> Forall (fun f => f <> []) (columns row).
Proof.
  intros Hne. unfold columns, re_split_ws2.
  pose proof (strip_trimmed row) as H. unfold trimmed in H.
  apply andb_true_iff in H as [Hl Hr].
  apply re_split_go_nonempty; [auto | reflexivity|].
  now rewrite app_nil_r.
Qed.

Lemma in_environments_of (rows : list str) (e : Environment) :
  In e (environments_of rows) ->
  exists row, In row rows /\ strip row <> []
              /\ (4 <= List.length (columns row))%nat
              /\ e = environment_of (columns row).
Proof.
  unfold environments_of. rewrite in_map_iff.
  intros (cols & <- & Hin). apply filter_In in Hin as [Hin Hlen].
  apply in_map_iff in Hin as (row & <- & Hin).
  apply filter_In in Hin as [Hin Hne].
  exists row. repeat split; try assumption.
  - intros E. rewrite E in Hne. discriminate.
  - now apply Nat.leb_le.
Qed.

(** X4: every Environment that [parse_environment_list] returns has an
    id, a title, a created and an updated field that are not empty and
    carry no whitespace at either end. *)
Theorem X4_parsed_fields_are_clean (output : str) (e : Environment) :
  In e (parse_environment_list output) ->
  Forall (fun f => f <> [] /\ trimmed f = true)
         [id e; title e; created e; updated e].
Proof.
  rewrite parse_environment_list_rows. intros Hin.
  apply in_environments_of in Hin as (row & _ & Hne & Hlen & ->).
  pose proof (columns_nonempty row Hne) as Hn.
  pose proof (columns_trimmed row) as Ht.
  rewrite Forall_forall in Hn, Ht.
  assert (Hk : forall k, (k < 4)%nat ->
                 nth k (columns row) [] <> []
                 /\ trimmed (nth k (columns row) []) = true).
  { intros k Hk. assert (In (nth k (columns row) []) (columns row))
      by (apply nth_In; lia). auto. }
  unfold environment_of. cbn [id title created updated].
  repeat constructor; apply Hk; lia.
Qed.

Lemma X4_parsed_fields_are_clean_witness :
  Forall (fun f => f <> [] /\ trimmed f = true)
         [lit "e"; lit "f"; lit "g"; lit "h"].
Proof.
  apply (@X4_parsed_fields_are_clean table_with_row_above_header
           {| id := lit "e"; title := lit "f";
              created := lit "g"; updated := lit "h" |}).
  vm_compute. auto.
Defined.

Lemma strip_empty_parses_nothing (output : str) :
  strip output = [] -> parse_environment_list output = [].
Proof.
  intros H. unfold parse_environment_list. rewrite H. reflexivity.
Qed.

(** ** [parse_environment_list]: reading back a printed table *)

Lemma join_nonempty (sep x : str) (rest : list str) :
  x <> [] -> join sep (x :: rest) <> [].
Proof.
  intros Hx. destruct rest; cbn [join]; [exact Hx|].
  intros E. apply app_eq_nil in E as [E _]. contradiction.
Qed.

Lemma join_starts_clean (sep x : str) (rest : list str) :
  x <> [] -> starts_clean x = true -> starts_clean (join sep (x :: rest)) = true.
Proof.
  intros Hx Hc. destruct rest; cbn [join]; [exact Hc|].
  now apply starts_clean_app.
Qed.

Lemma join_ends_clean (sep : str) (items : list str) :
  items <> [] ->
  Forall (fun i => i <> [] /\ starts_clean (rev i) = true) items ->
  starts_clean (rev (join sep items)) = true.
Proof.
  induction items as [|x items IH]; [congruence|]. intros _ H.
  inversion H as [|? ? [Hx Hcx] Hrest]; subst.
  destruct items as [|y items]; [exact Hcx|].
  rewrite join_cons, !rev_app_distr, <- app_assoc.
  inversion Hrest as [|? ? [Hy _] _]; subst.
  apply starts_clean_app.
  - intros E. apply (f_equal (@rev N)) in E. rewrite rev_involutive in E.
    now apply (join_nonempty sep items Hy).
  - apply IH; [discriminate | exact Hrest].
Qed.

Lemma join_without (ch : N) (sep : str) (items : list str) :
  existsb (N.eqb ch) sep = false ->
  Forall (fun i => existsb (N.eqb ch) i = false) items ->
  existsb (N.eqb ch) (join sep items) = false.
Proof.
  intros Hsep. induction items as [|x items IH]; intros H; [reflexivity|].
  inversion H as [|? ? Hx Hrest]; subst.
  destruct items as [|y items]; [exact Hx|].
  rewrite join_cons, !existsb_app, Hx, Hsep, IH by exact Hrest.
  reflexivity.
Qed.

Lemma column_texts_parts (e : Environment) :
  column_texts e = true ->
  Forall (fun f => column_text f = true)
         [id e; title e; created e; updated e].
Proof.
  unfold column_texts. rewrite !andb_true_iff.
  intros [[[H1 H2] H3] H4]. repeat constructor; assumption.
Qed.

Lemma render_row_shape (e : Environment) :
  column_texts e = true ->
  render_row e <> []
  /\ trimmed (render_row e) = true
  /\ existsb (N.eqb 10) (render_row e) = false
  /\ columns (render_row e) = [id e; title e; created e; updated e].
Proof.
  intros H. apply column_texts_parts in H.
  assert (Hparts : Forall (fun f => f <> [] /\ starts_clean f = true
                                    /\ starts_clean (rev f) = true
                                    /\ existsb (N.eqb 10) f = false)
                          [id e; title e; created e; updated e]).
  { eapply Forall_impl; [|exact H]. intros f Hf.
    apply column_text_parts in Hf. tauto. }
  assert (Hid : id e <> [] /\ starts_clean (id e) = true).
  { inversion Hparts as [|? ? Hf _]; subst. tauto. }
  assert (Htrim : trimmed (render_row e) = true).
  { unfold trimmed, render_row. apply andb_true_iff. split.
    - now apply join_starts_clean.
    - apply join_ends_clean; [discriminate|].
      eapply Forall_impl; [|exact Hparts]. cbn. tauto. }
  repeat split.
  - now apply join_nonempty.
  - exact Htrim.
  - apply join_without; [reflexivity|].
    eapply Forall_impl; [|exact Hparts]. cbn. tauto.
  - unfold columns. rewrite (trimmed_strip_id _ Htrim).
    apply re_split_join; [discriminate | exact H].
Qed.

Lemma environments_of_rendered (envs : list Environment) :
  Forall (fun e => column_texts e = true) envs ->
  environments_of (map render_row envs) = envs.
Proof.
  induction envs as [|e envs IH]; intros H; [reflexivity|].
  inversion H as [|? ? He Hrest]; subst.
  cbn [map]. rewrite environments_of_cons, IH by exact Hrest.
  destruct (render_row_shape e He) as (Hne & Htrim & _ & Hcols).
  unfold environments_of. cbn [filter map].
  rewrite (trimmed_strip_id _ Htrim).
  destruct (render_row e) as [|c r] eqn:Er; [congruence|].
  cbn [is_empty negb map filter]. rewrite Hcols.
  cbn [List.length Nat.leb map app]. destruct e; reflexivity.
Qed.

Lemma rendered_table_rows (envs : list Environment) :
  Forall (fun e => column_texts e = true) envs ->
  data_rows (split_lines (strip (render_table envs))) = map render_row envs.
Proof.
  intros H.
  assert (Hrows : Forall (fun r => r <> []
                                   /\ starts_clean (rev r) = true
                                   /\ existsb (N.eqb 10) r = false)
                         (header_row :: map render_row envs)).
  { constructor; [repeat split; discriminate|].
    rewrite Forall_map. eapply Forall_impl; [|exact H].
    intros e He. destruct (render_row_shape e He) as (Hne & Htrim & Hnl & _).
    unfold trimmed in Htrim. apply andb_true_iff in Htrim. tauto. }
  assert (Htrim : trimmed (render_table envs) = true).
  { unfold trimmed, render_table. apply andb_true_iff. split.
    - apply join_starts_clean; [discriminate | reflexivity].
    - apply join_ends_clean; [discriminate|].
      eapply Forall_impl; [|exact Hrows]. cbn. tauto. }
  rewrite (trimmed_strip_id _ Htrim).
  unfold split_lines, render_table.
  rewrite split_on_join;
    [|discriminate | eapply Forall_impl; [|exact Hrows]; cbn; tauto].
  now rewrite data_rows_header_first by reflexivity.
Qed.

(** X5: parsing reads back a printed table.  For environments whose four
    fields are column texts (not empty, no whitespace at either end, no
    two whitespace characters side by side, no line break), the table
    with a header row beginning with "ID", one row per environment and
    columns two spaces apart parses to exactly those environments, in
    order. *)
Theorem X5_parse_reads_back_table (envs : list Environment) :
  Forall (fun e => column_texts e = true) envs ->
  parse_environment_list (render_table envs) = envs.
Proof.
  intros H.
  rewrite parse_environment_list_rows, rendered_table_rows by exact H.
  now apply environments_of_rendered.
Qed.

Lemma X5_parse_reads_back_table_witness :
  parse_environment_list
    (render_table [ {| id := lit "env-7"; title := lit "Fix the build";
                       created := lit "2 days ago";
                       updated := lit "1 hour ago" |} ])
  = [ {| id := lit "env-7"; title := lit "Fix the build";
         created := lit "2 days ago"; updated := lit "1 hour ago" |} ].
Proof.
  apply X5_parse_reads_back_table.
  repeat constructor.
Defined.

(** X6: the list route, end to end.  When the command line is printed
    and the tool starts, prints the UTF-8 bytes of a table of environments on stdout and anything
    decodable on stderr, and exits with code 0 (or without one), the
    route answers with exactly those environments. *)
Theorem X6_list_returns_the_table (rt : Runtime) (child : Child)
    (envs : list Environment) (table err : bytes) :
  print rt (command_line rt [lit "list"] None) = Returns tt ->
  create_subprocess_exec rt
    [get_container_use_bin (settings rt); lit "list"]
    (get_container_use_work_dir (settings rt)) = Returns child ->
  communicate child = Returns (table, err) ->
  encode (render_table envs) = Some table ->
  decode err <> None ->
  child_returncode child = None \/ child_returncode child = Some 0%Z ->
  Forall (fun e => column_texts e = true) envs ->
  list_environments rt = Returns envs.
Proof.
  intros Hprint Hspawn Hcomm Henc Herr Hrc Henvs.
  unfold list_environments, await_command.
  name_command_line rt [lit "list"] (@None str).
  rewrite Hprint. unfold try_except, bind.
  rewrite Hspawn, Hcomm, !decode_or_empty_spec.
  rewrite (decode_encode _ Henc).
  destruct (decode err) as [stderr|]; [|congruence].
  rewrite returncode_or_0_spec.
  assert (E : match child_returncode child with
              | Some c => c
              | None => 0%Z
              end = 0%Z) by (destruct Hrc as [-> | ->]; reflexivity).
  rewrite E. cbn [Z.eqb negb]. f_equal.
  rewrite parse_environment_list_rows, rendered_table_rows by exact Henvs.
  now apply environments_of_rendered.
Qed.

Lemma X6_list_returns_the_table_witness :
  list_environments (tool_printing env_7_table [] None) = Returns [env_7].
Proof.
  eapply (@X6_list_returns_the_table (tool_printing env_7_table [] None)).
  - reflexivity.
  - reflexivity.
  - reflexivity.
  - reflexivity.
  - discriminate.
  - left. reflexivity.
  - repeat constructor.
Defined.

(** ** The streams of a session *)

Lemma data_sent_emit (tag : str) (a : Action) (c : Conn) :
  data_sent tag (emit a c) = data_sent tag c ++ tagged_data tag a.
Proof.
  unfold data_sent. cbn [emit log]. rewrite map_app, flat_map_app. cbn.
  now rewrite app_nil_r.
Qed.

Lemma quiet_refl {P} (t : task_id) (s : Session P) : quiet t s s.
Proof. repeat split; auto. Qed.

Lemma quiet_trans {P} (t : task_id) (s1 s2 s3 : Session P) :
  quiet t s1 s2 -> quiet t s2 s3 -> quiet t s1 s3.
Proof.
  intros (A1 & B1 & C1) (A2 & B2 & C2). repeat split.
  - now rewrite A2.
  - now rewrite B2.
  - auto.
Qed.

Lemma quiet_keeps_stream {P} (answers : list read_result) (t : task_id)
    (s s' : Session P) :
  stream_inv answers t s -> quiet t s s' -> stream_inv answers t s'.
Proof.
  unfold stream_inv. intros H (Hd & Hr & Hs).
  assert (Hpre : is_prefix (data_sent (tag_of t) (conn s))
                           (forwardable answers)).
  { destruct (status s t) as [[| |]|]; try exact H.
    exists (forwardable (reads_of t s)). now rewrite H. }
  destruct (status s' t) as [[| |]|] eqn:E; rewrite ?Hd; try exact Hpre.
  rewrite (Hs eq_refl) in H. now rewrite Hr.
Qed.

Lemma status_in_set_other (ts : list (task_id * task_status))
    (t t' : task_id) (st : task_status) :
  st <> Running ->
  status_in (set_status t' st ts) t = Some Running ->
  status_in ts t = Some Running.
Proof.
  intros Hst. unfold status_in, set_status.
  induction ts as [|[x sx] ts IH]; cbn; [discriminate|].
  destruct (task_eqb x t') eqn:E1; cbn; destruct (task_eqb x t) eqn:E2;
    cbn; auto.
  intros H. congruence.
Qed.

Lemma reader_iteration_other_tag (tag tag' : str) (a : read_result)
    (c : Conn) :
  str_eqb tag' tag = false ->
  data_sent tag (fst (reader_iteration tag' a c)) = data_sent tag c.
Proof.
  intros Hne. unfold reader_iteration.
  destruct a as [[|b d]|e]; try reflexivity.
  destruct (decode (b :: d)); [|reflexivity].
  unfold send_json. destruct (peer_gone c); [reflexivity|].
  cbn [fst]. rewrite data_sent_emit. cbn [tagged_data]. rewrite Hne.
  apply app_nil_r.
Qed.

(** What one turn of a reader does to its own stream. *)
Lemma reader_iteration_own_tag (tag : str) (a : read_result) (c : Conn) :
  let (c', again) := reader_iteration tag a c in
  if again
  then exists text, forwardable [a] = [text]
                    /\ data_sent tag c' = data_sent tag c ++ [text]
  else data_sent tag c' = data_sent tag c.
Proof.
  unfold reader_iteration.
  destruct a as [[|b d]|e]; try reflexivity.
  cbn [forwardable].
  destruct (decode (b :: d)) as [text|]; [|reflexivity].
  unfold send_json. destruct (peer_gone c); [reflexivity|].
  exists text. split; [reflexivity|].
  rewrite data_sent_emit. cbn [tagged_data].
  unfold str_eqb. destruct (list_eq_dec N.eq_dec tag tag); congruence.
Qed.

Lemma forwardable_cons (a : read_result) (q : list read_result)
    (text : str) :
  forwardable [a] = [text] -> forwardable (a :: q) = text :: forwardable q.
Proof.
  destruct a as [[|b d]|e]; cbn [forwardable]; try discriminate.
  destruct (decode (b :: d)); [|discriminate]. now intros [= ->].
Qed.

Lemma reads_of_with_reads {P} (t : task_id) (q : list read_result)
    (s : Session P) :
  t = Stdout \/ t = Stderr -> reads_of t (with_reads t q s) = q.
Proof. intros [-> | ->]; reflexivity. Qed.

(** A reader keeps its own stream in order. *)
Lemma step_reader_own_stream {P} (answers : list read_result) (t : task_id)
    (s : Session P) :
  t = Stdout \/ t = Stderr ->
  stream_inv answers t s ->
  stream_inv answers t (step_reader t (tag_of t) s).
Proof.
  intros Ht H. unfold step_reader.
  destruct (status s t) as [[| |]|] eqn:Est; try exact H.
  destruct (reads_of t s) as [|a q] eqn:Eq; [exact H|].
  unfold stream_inv in H. rewrite Est, Eq in H.
  pose proof (reader_iteration_own_tag (tag_of t) a (conn s)) as Hit.
  destruct (reader_iteration (tag_of t) a (conn s)) as [c' [|]].
  - destruct Hit as (text & Hf & Hd).
    unfold stream_inv.
    assert (E : status (with_conn c' (with_reads t q s)) t = Some Running)
      by exact Est.
    rewrite E. cbn [conn with_conn].
    change (reads_of t (with_conn c' (with_reads t q s)))
      with (reads_of t (with_reads t q s)).
    rewrite (reads_of_with_reads q s Ht), Hd, <- app_assoc. cbn [app].
    now rewrite <- (forwardable_cons a q Hf).
  - unfold stream_inv.
    assert (E : status (with_tasks
                          (set_status t Finished
                             (tasks (with_conn c' (with_reads t q s))))
                          (with_conn c' (with_reads t q s))) t
                = Some Finished).
    { unfold status. cbn [tasks with_tasks with_conn with_reads].
      now apply status_set_status with (old := Running). }
    rewrite E. cbn [conn with_tasks with_conn]. rewrite Hit.
    exists (forwardable (a :: q)). now rewrite H.
Qed.

(** A reader leaves the other stream alone. *)
Lemma step_reader_quiet {P} (t t' : task_id) (s : Session P) :
  t = Stdout \/ t = Stderr -> t' = Stdout \/ t' = Stderr -> t <> t' ->
  quiet t s (step_reader t' (tag_of t') s).
Proof.
  intros Ht Ht' Hne.
  assert (Htag : str_eqb (tag_of t') (tag_of t) = false).
  { destruct Ht as [-> | ->], Ht' as [-> | ->]; try congruence;
      reflexivity. }
  assert (Hreads : forall q, reads_of t (with_reads t' q s) = reads_of t s).
  { intros q. destruct Ht as [-> | ->], Ht' as [-> | ->]; try congruence;
      reflexivity. }
  unfold step_reader.
  destruct (status s t') as [[| |]|]; try apply quiet_refl.
  destruct (reads_of t' s) as [|a q]; [apply quiet_refl|].
  pose proof (@reader_iteration_other_tag (tag_of t) (tag_of t') a (conn s) Htag) as Hd.
  destruct (reader_iteration (tag_of t') a (conn s)) as [c' [|]];
    cbn [fst] in Hd; repeat split; try exact Hd; try apply Hreads; auto.
  unfold status. cbn [tasks with_tasks with_conn with_reads].
  apply status_in_set_other. discriminate.
Qed.

Lemma input_iteration_data_sent (tag : str) (answer : recv_result json)
    (c : Conn) :
  data_sent tag (fst (input_iteration answer c)) = data_sent tag c.
Proof.
  unfold input_iteration.
  destruct answer as [[| | | | |d]| |e]; try reflexivity.
  destruct (tagged_stdin d); [|reflexivity].
  destruct (dict_get d (lit "data")) as [[| | |t| |]|]; try reflexivity;
    (destruct (encode _); [|reflexivity]); cbn [fst];
    rewrite data_sent_emit; apply app_nil_r.
Qed.

(** The inbound relay leaves both output streams alone. *)
Lemma handle_websocket_input_quiet (t : task_id) (s : Session json) :
  t = Stdout \/ t = Stderr -> quiet t s (handle_websocket_input s).
Proof.
  intros Ht. unfold handle_websocket_input.
  destruct (status s Input) as [[| |]|]; try apply quiet_refl.
  destruct (inbound s) as [|a q]; [apply quiet_refl|].
  pose proof (input_iteration_data_sent (tag_of t) a (conn s)) as Hd.
  destruct (input_iteration a (conn s)) as [c' [|]]; cbn [fst] in Hd;
    repeat split; try exact Hd; auto;
    try (destruct Ht as [-> | ->]; reflexivity).
  unfold status. cbn [tasks with_tasks with_conn with_inbound].
  apply status_in_set_other. discriminate.
Qed.

Lemma process_exits_quiet {P} (t : task_id) (code : Z) (s : Session P) :
  quiet t s (process_exits code s).
Proof.
  unfold process_exits.
  destruct (returncode (proc (conn s))); [apply quiet_refl|].
  repeat split; auto.
Qed.

(** ** What the handler's own turn adds *)

Lemma signals_carry_no_data (tag : str) (added : list (N * Action)) :
  Forall (fun x => is_signal (snd x) = true) added ->
  flat_map (tagged_data tag) (map snd added) = [].
Proof.
  induction added as [|[n a] added IH]; intros H; [reflexivity|].
  inversion H as [|? ? Ha Hrest]; subst. cbn [map flat_map snd].
  rewrite IH by exact Hrest. destruct a; try discriminate; reflexivity.
Qed.

(** The teardown of a watch session: what it adds to the log. *)
Lemma watch_cleanup_log (c : Conn) :
  exists c' added,
    Watch.cleanup c = (c', true)
    /\ log c' = log c ++ added
    /\ Forall (fun x => is_signal (snd x) = true) added
    /\ peer_gone c' = peer_gone c
    /\ returncode (proc c') <> None
    /\ (returncode (proc c) <> None -> c' = c)
    /\ (List.length (filter is_kill (map snd added))
        <= List.length (filter is_terminate (map snd added)) <= 1)%nat.
Proof.
  destruct (returncode (proc c)) as [code|] eqn:H.
  - exists c, []. unfold Watch.cleanup. rewrite H.
    repeat split; try congruence; try (cbn; lia).
    + now rewrite app_nil_r.
    + constructor.
  - destruct (watch_cleanup_reaps c H) as (c' & E & Hrc & Hpeer & Hlog & _).
    eexists c', _. split; [exact E|]. split; [exact Hlog|].
    repeat split; try assumption; try congruence;
      destruct (exits_within 5000 (proc c)); cbn; try lia;
      repeat constructor.
Qed.

(** The same for a terminal session. *)
Lemma terminal_cleanup_log (c : Conn) :
  exists c' added,
    Terminal.cleanup c = (c', true)
    /\ log c' = log c ++ added
    /\ Forall (fun x => is_signal (snd x) = true) added
    /\ peer_gone c' = peer_gone c
    /\ returncode (proc c') <> None
    /\ (returncode (proc c) <> None -> c' = c)
    /\ (List.length (filter is_kill (map snd added))
        <= List.length (filter is_terminate (map snd added)) <= 1)%nat.
Proof.
  destruct (returncode (proc c)) as [code|] eqn:H.
  - exists c, []. unfold Terminal.cleanup. rewrite H.
    repeat split; try congruence; try (cbn; lia).
    + now rewrite app_nil_r.
    + constructor.
  - rewrite terminal_cleanup_as_watch by exact H.
    destruct (has_stdin (proc c)).
    + destruct (watch_cleanup_log (emit CloseStdin c))
        as (c' & added & E & Hlog & Hsig & Hpeer & Hrc & _ & Hn).
      exists c', ((clock c, CloseStdin) :: added).
      split; [exact E|]. split.
      { rewrite Hlog. cbn [emit log]. now rewrite <- app_assoc. }
      repeat split; try assumption; try congruence;
        try (constructor; [reflexivity | assumption]);
        cbn [map filter snd is_kill is_terminate]; lia.
    + destruct (watch_cleanup_log c)
        as (c' & added & E & Hlog & Hsig & Hpeer & Hrc & _ & Hn).
      exists c', added. repeat split; try assumption; try congruence; lia.
Qed.

Lemma cancel_and_await_quiet {P} (t t' : task_id) (s : Session P) :
  quiet t s (cancel_and_await s t').
Proof.
  unfold cancel_and_await. repeat split.
  - cbn [conn with_conn]. rewrite data_sent_emit.
    destruct (status _ t') as [[| |]|]; cbn [conn with_conn with_tasks];
      rewrite data_sent_emit; cbn; now rewrite !app_nil_r.
  - destruct (status _ t') as [[| |]|]; destruct t; reflexivity.
  - unfold status. cbn [tasks with_conn].
    destruct (status_in (tasks s) t') as [[| |]|];
      cbn [tasks with_conn with_tasks]; auto.
    apply status_in_set_other. discriminate.
Qed.

Lemma cancel_tasks_quiet (t : task_id) (s : Session str) :
  quiet t s (Watch.cancel_tasks s).
Proof.
  unfold Watch.cancel_tasks. generalize (map fst (tasks s)) as ts.
  intros ts. revert s. induction ts as [|t' ts IH]; intros s;
    [apply quiet_refl|].
  cbn [fold_left]. eapply quiet_trans; [|apply IH].
  apply cancel_and_await_quiet.
Qed.

Lemma cancel_remaining_quiet (t : task_id) (s : Session json) :
  quiet t s (Terminal.cancel_remaining s).
Proof.
  unfold Terminal.cancel_remaining. generalize (map fst (tasks s)) as ts.
  intros ts. revert s. induction ts as [|t' ts IH]; intros s;
    [apply quiet_refl|].
  cbn [fold_left]. eapply quiet_trans; [|apply IH].
  destruct (status s t') as [[| |]|]; try apply quiet_refl.
  apply cancel_and_await_quiet.
Qed.

Lemma with_conn_quiet {P} (t : task_id) (c : Conn) (s : Session P) :
  data_sent (tag_of t) c = data_sent (tag_of t) (conn s) ->
  quiet t s (with_conn c s).
Proof. intros H. repeat split; auto; try (destruct t; reflexivity). Qed.

Lemma watch_finally_quiet (t : task_id) (s : Session str) :
  exists s', Watch.finally s = (s', true) /\ quiet t s s'
             /\ main s' = main s.
Proof.
  unfold Watch.finally.
  destruct (watch_cleanup_log (conn s))
    as (c' & added & -> & Hlog & Hsig & _).
  eexists. split; [reflexivity|]. split.
  - eapply quiet_trans; [|apply cancel_tasks_quiet].
    apply with_conn_quiet. unfold data_sent.
    rewrite Hlog, map_app, flat_map_app.
    now rewrite (signals_carry_no_data _ Hsig), app_nil_r.
  - unfold Watch.cancel_tasks.
    generalize (map fst (tasks (with_conn c' s))) as ts.
    change (main s) with (main (with_conn c' s)).
    generalize (with_conn c' s) as s0. intros s0 ts. revert s0.
    induction ts as [|t' ts IH]; intros s0; [reflexivity|].
    cbn [fold_left]. rewrite IH. unfold cancel_and_await.
    destruct (status _ t') as [[| |]|]; reflexivity.
Qed.

Lemma terminal_finally_quiet (t : task_id) (s : Session json) :
  exists s', Terminal.finally s = (s', true) /\ quiet t s s'
             /\ main s' = main s.
Proof.
  unfold Terminal.finally.
  destruct (terminal_cleanup_log (conn s))
    as (c' & added & -> & Hlog & Hsig & _).
  eexists. split; [reflexivity|]. split.
  - eapply quiet_trans; [|apply cancel_remaining_quiet].
    apply with_conn_quiet. unfold data_sent.
    rewrite Hlog, map_app, flat_map_app.
    now rewrite (signals_carry_no_data _ Hsig), app_nil_r.
  - unfold Terminal.cancel_remaining.
    generalize (map fst (tasks (with_conn c' s))) as ts.
    change (main s) with (main (with_conn c' s)).
    generalize (with_conn c' s) as s0. intros s0 ts. revert s0.
    induction ts as [|t' ts IH]; intros s0; [reflexivity|].
    cbn [fold_left]. rewrite IH. unfold cancel_and_await.
    destruct (status s0 t') as [[| |]|]; try reflexivity.
    cbn [conn with_conn]. destruct (status _ t') as [[| |]|]; reflexivity.
Qed.

Lemma watch_step_main_quiet (t : task_id) (s : Session str) :
  t = Stdout \/ t = Stderr -> quiet t s (Watch.step_main s).
Proof.
  intros Ht. unfold Watch.step_main.
  destruct (main s); try apply quiet_refl.
  destruct (inbound s) as [|[text| |e] q]; [apply quiet_refl | | |].
  - repeat split; auto; try (destruct t; reflexivity).
  - destruct (watch_finally_quiet t
                (with_conn (mark_peer_gone (conn s)) (with_inbound q s)))
      as (s' & -> & Hq & _).
    eapply quiet_trans; [|eapply quiet_trans; [exact Hq|]].
    + repeat split; auto; try (destruct t; reflexivity).
    + repeat split; auto; try (destruct t; reflexivity).
  - destruct (watch_finally_quiet t (with_inbound q s)) as (s' & -> & Hq & _).
    eapply quiet_trans; [|eapply quiet_trans; [exact Hq|]].
    + repeat split; auto; try (destruct t; reflexivity).
    + unfold send_json. destruct (peer_gone (conn s')).
      * repeat split; auto; try (destruct t; reflexivity).
      * repeat split; auto; try (destruct t; reflexivity).
        cbn [conn with_conn with_main]. rewrite data_sent_emit.
        cbn [tagged_data].
        destruct Ht as [-> | ->]; cbn; apply app_nil_r.
Qed.

Lemma terminal_step_main_quiet (t : task_id) (s : Session json) :
  quiet t s (Terminal.step_main s).
Proof.
  unfold Terminal.step_main.
  destruct (main s); try apply quiet_refl.
  destruct (existsb _ (tasks s)); [|apply quiet_refl].
  destruct (terminal_finally_quiet t s) as (s' & -> & Hq & _).
  eapply quiet_trans; [exact Hq|].
  repeat split; auto; try (destruct t; reflexivity).
Qed.

(** Along a run each reader's stream stays in order. *)
Lemma watch_run_stream (answers : list read_result) (t : task_id)
    (sched : list turn) (s : Session str) :
  t = Stdout \/ t = Stderr ->
  stream_inv answers t s -> stream_inv answers t (Watch.run sched s).
Proof.
  intros Ht. revert s. induction sched as [|tn sched IH]; intros s H;
    [exact H|].
  cbn [Watch.run fold_left]. apply IH.
  destruct tn as [[| |] | | code]; cbn [Watch.step].
  - destruct Ht as [-> | ->].
    + apply (@step_reader_own_stream str answers Stdout s);
        [left; reflexivity | exact H].
    + eapply quiet_keeps_stream; [exact H|].
      apply (@step_reader_quiet str Stderr Stdout s); auto; discriminate.
  - destruct Ht as [-> | ->].
    + eapply quiet_keeps_stream; [exact H|].
      apply (@step_reader_quiet str Stdout Stderr s); auto; discriminate.
    + apply (@step_reader_own_stream str answers Stderr s);
        [right; reflexivity | exact H].
  - exact H.
  - eapply quiet_keeps_stream; [exact H|]. now apply watch_step_main_quiet.
  - eapply quiet_keeps_stream; [exact H|]. apply process_exits_quiet.
Qed.

Lemma terminal_run_stream (answers : list read_result) (t : task_id)
    (sched : list turn) (s : Session json) :
  t = Stdout \/ t = Stderr ->
  stream_inv answers t s -> stream_inv answers t (Terminal.run sched s).
Proof.
  intros Ht. revert s. induction sched as [|tn sched IH]; intros s H;
    [exact H|].
  cbn [Terminal.run fold_left]. apply IH.
  destruct tn as [[| |] | | code]; cbn [Terminal.step].
  - destruct Ht as [-> | ->].
    + apply (@step_reader_own_stream json answers Stdout s);
        [left; reflexivity | exact H].
    + eapply quiet_keeps_stream; [exact H|].
      apply (@step_reader_quiet json Stderr Stdout s); auto; discriminate.
  - destruct Ht as [-> | ->].
    + eapply quiet_keeps_stream; [exact H|].
      apply (@step_reader_quiet json Stdout Stderr s); auto; discriminate.
    + apply (@step_reader_own_stream json answers Stderr s);
        [right; reflexivity | exact H].
  - eapply quiet_keeps_stream; [exact H|].
    now apply handle_websocket_input_quiet.
  - eapply quiet_keeps_stream; [exact H|]. apply terminal_step_main_quiet.
  - eapply quiet_keeps_stream; [exact H|]. apply process_exits_quiet.
Qed.

Lemma stream_inv_prefix {P} (answers : list read_result) (t : task_id)
    (s : Session P) :
  stream_inv answers t s ->
  is_prefix (data_sent (tag_of t) (conn s)) (forwardable answers).
Proof.
  unfold stream_inv. destruct (status s t) as [[| |]|]; auto.
  intros H. exists (forwardable (reads_of t s)). now rewrite H.
Qed.

(** X7: per-stream order.  In every run of the watch handler and of the
    terminal handler, on every schedule, the stdout messages sent to the
    client are, in order and without gap or repetition, the decoded texts
    of an initial part of what the stdout pipe gave, up to its first end
    of file, failed read or undecodable chunk; and likewise for
    stderr. *)
Theorem X7_stream_order_is_kept (sched : list turn) :
  (forall (w : World str) (s : Session str),
     session (watch_environments_websocket w sched) = Some s ->
     is_prefix (data_sent (lit "stdout") (conn s))
               (forwardable (stdout_answers w))
     /\ is_prefix (data_sent (lit "stderr") (conn s))
                  (forwardable (stderr_answers w)))
  /\ (forall (environment_id : str) (w : World json) (s : Session json),
        session (terminal_websocket environment_id w sched) = Some s ->
        is_prefix (data_sent (lit "stdout") (conn s))
                  (forwardable (stdout_answers w))
        /\ is_prefix (data_sent (lit "stderr") (conn s))
                     (forwardable (stderr_answers w))).
Proof.
  split.
  - intros w s. unfold watch_environments_websocket.
    destruct (spawn w _ _) as [p|e]; [|discriminate].
    cbn [session]. intros [= <-]. split.
    + apply (@stream_inv_prefix str _ Stdout).
      apply watch_run_stream; [auto|]. reflexivity.
    + apply (@stream_inv_prefix str _ Stderr).
      apply watch_run_stream; [auto|]. reflexivity.
  - intros eid w s. unfold terminal_websocket.
    destruct eid as [|ch eid]; [discriminate|].
    destruct (spawn w _ _) as [p|e]; [|discriminate].
    cbn [session]. intros [= <-]. split.
    + apply (@stream_inv_prefix json _ Stdout).
      apply terminal_run_stream; [auto|]. reflexivity.
    + apply (@stream_inv_prefix json _ Stderr).
      apply terminal_run_stream; [auto|]. reflexivity.
Qed.

Lemma X7_stream_order_is_kept_witness :
  exists s,
    session (watch_environments_websocket one_line_world line_then_exit)
    = Some s
    /\ is_prefix (data_sent (lit "stdout") (conn s))
                 (forwardable (stdout_answers one_line_world)).
Proof.
  eexists. split; [reflexivity|].
  apply (proj1 (X7_stream_order_is_kept line_then_exit) one_line_world _
               eq_refl).
Defined.

(** ** What is done at most once *)

Lemma times_extended (k : Action -> bool) (c c' : Conn)
    (added : list (N * Action)) :
  log c' = log c ++ added ->
  times k c' = (times k c + List.length (filter k (map snd added)))%nat.
Proof.
  intros H. unfold times. now rewrite H, map_app, filter_app, length_app.
Qed.

Lemma times_emit (k : Action -> bool) (a : Action) (c : Conn) :
  times k (emit a c) = (times k c + if k a then 1 else 0)%nat.
Proof.
  rewrite (@times_extended k c (emit a c) [(clock c, a)] eq_refl).
  cbn. now destruct (k a).
Qed.

Lemma reader_iteration_times (k : Action -> bool) (t : task_id)
    (a : read_result) (c : Conn) :
  t = Stdout \/ t = Stderr -> by_handler_only k ->
  times k (fst (reader_iteration (tag_of t) a c)) = times k c
  /\ proc (fst (reader_iteration (tag_of t) a c)) = proc c.
Proof.
  intros Ht Hk. unfold reader_iteration.
  destruct a as [[|b d]|e]; try (split; reflexivity).
  destruct (decode (b :: d)) as [text|]; [|split; reflexivity].
  unfold send_json. destruct (peer_gone c); [split; reflexivity|].
  cbn [fst]. split; [|reflexivity]. rewrite times_emit.
  destruct (k (SendJson (Tagged (tag_of t) text))) eqn:E; [|lia].
  apply Hk in E. destruct Ht as [-> | ->]; cbn in E; destruct E; discriminate.
Qed.

Lemma step_reader_times {P} (k : Action -> bool) (t : task_id)
    (s : Session P) :
  t = Stdout \/ t = Stderr -> by_handler_only k ->
  times k (conn (step_reader t (tag_of t) s)) = times k (conn s)
  /\ proc (conn (step_reader t (tag_of t) s)) = proc (conn s)
  /\ main (step_reader t (tag_of t) s) = main s.
Proof.
  intros Ht Hk. unfold step_reader.
  destruct (status s t) as [[| |]|]; try (repeat split; reflexivity).
  destruct (reads_of t s) as [|a q]; [repeat split; reflexivity|].
  destruct (reader_iteration_times a (conn s) Ht Hk) as [H1 H2].
  destruct (reader_iteration (tag_of t) a (conn s)) as [c' [|]];
    cbn [fst] in H1, H2; repeat split; assumption.
Qed.

Lemma input_iteration_times (k : Action -> bool) (answer : recv_result json)
    (c : Conn) :
  by_handler_only k ->
  times k (fst (input_iteration answer c)) = times k c
  /\ proc (fst (input_iteration answer c)) = proc c.
Proof.
  intros Hk. unfold input_iteration.
  destruct answer as [[| | | | |d]| |e]; try (split; reflexivity).
  destruct (tagged_stdin d); [|split; reflexivity].
  destruct (dict_get d (lit "data")) as [[| | |t| |]|];
    try (split; reflexivity);
    (destruct (encode _) as [b|]; [|split; reflexivity]); cbn [fst];
    (split; [|reflexivity]); rewrite times_emit;
    (destruct (k (WriteStdin b)) eqn:E; [apply Hk in E; destruct E | lia]).
Qed.

Lemma handle_websocket_input_times (k : Action -> bool) (s : Session json) :
  by_handler_only k ->
  times k (conn (handle_websocket_input s)) = times k (conn s)
  /\ proc (conn (handle_websocket_input s)) = proc (conn s)
  /\ main (handle_websocket_input s) = main s.
Proof.
  intros Hk. unfold handle_websocket_input.
  destruct (status s Input) as [[| |]|]; try (repeat split; reflexivity).
  destruct (inbound s) as [|a q]; [repeat split; reflexivity|].
  destruct (input_iteration_times a (conn s) Hk) as [H1 H2].
  destruct (input_iteration a (conn s)) as [c' [|]];
    cbn [fst] in H1, H2; repeat split; assumption.
Qed.

Lemma process_exits_times {P} (k : Action -> bool) (code : Z)
    (s : Session P) :
  times k (conn (process_exits code s)) = times k (conn s)
  /\ main (process_exits code s) = main s
  /\ (returncode (proc (conn s)) <> None -> process_exits code s = s)
  /\ returncode (proc (conn (process_exits code s))) <> None.
Proof.
  unfold process_exits.
  destruct (returncode (proc (conn s))) eqn:E; repeat split;
    try congruence; cbn; discriminate.
Qed.

(** What a cancel loop adds to the log. *)
Lemma cancel_and_await_log {P} (s : Session P) (t : task_id) :
  exists added,
    log (conn (cancel_and_await s t)) = log (conn s) ++ added
    /\ Forall (fun x => is_cancel (snd x) = true) added
    /\ proc (conn (cancel_and_await s t)) = proc (conn s)
    /\ main (cancel_and_await s t) = main s.
Proof.
  unfold cancel_and_await. eexists.
  destruct (status _ t) as [[| |]|];
    cbn [conn with_conn with_tasks emit log proc main];
    (split; [rewrite <- app_assoc; reflexivity|]);
    repeat split; repeat constructor.
Qed.

Lemma cancel_fold_log {P} (f : Session P -> task_id -> Session P)
    (ts : list task_id) (s : Session P) :
  (forall s t, f s t = s \/ f s t = cancel_and_await s t) ->
  exists added,
    log (conn (fold_left f ts s)) = log (conn s) ++ added
    /\ Forall (fun x => is_cancel (snd x) = true) added
    /\ proc (conn (fold_left f ts s)) = proc (conn s)
    /\ main (fold_left f ts s) = main s.
Proof.
  intros Hf. revert s. induction ts as [|t ts IH]; intros s.
  - exists []. cbn. rewrite app_nil_r. repeat split. constructor.
  - cbn [fold_left].
    destruct (IH (f s t)) as (added & Hlog & Hc & Hp & Hm).
    destruct (Hf s t) as [E | E]; rewrite E in *.
    + exists added. auto.
    + destruct (cancel_and_await_log s t) as (a1 & Hlog1 & Hc1 & Hp1 & Hm1).
      exists (a1 ++ added). rewrite Hlog, Hlog1, Hp, Hp1, Hm, Hm1.
      repeat split; [now rewrite app_assoc | now apply Forall_app].
Qed.

Lemma cancel_tasks_log (s : Session str) :
  exists added,
    log (conn (Watch.cancel_tasks s)) = log (conn s) ++ added
    /\ Forall (fun x => is_cancel (snd x) = true) added
    /\ proc (conn (Watch.cancel_tasks s)) = proc (conn s)
    /\ main (Watch.cancel_tasks s) = main s.
Proof. apply cancel_fold_log. auto. Qed.

Lemma cancel_remaining_log (s : Session json) :
  exists added,
    log (conn (Terminal.cancel_remaining s)) = log (conn s) ++ added
    /\ Forall (fun x => is_cancel (snd x) = true) added
    /\ proc (conn (Terminal.cancel_remaining s)) = proc (conn s)
    /\ main (Terminal.cancel_remaining s) = main s.
Proof.
  apply cancel_fold_log. intros s0 t.
  destruct (status s0 t) as [[| |]|]; auto.
Qed.

Lemma count_app (k : Action -> bool) (a b : list (N * Action)) :
  count k (a ++ b) = (count k a + count k b)%nat.
Proof. unfold count. now rewrite map_app, filter_app, length_app. Qed.

Lemma count_none (k : Action -> bool) (added : list (N * Action)) :
  Forall (fun x => k (snd x) = false) added -> count k added = 0%nat.
Proof.
  unfold count. induction added as [|[n a] added IH]; intros H;
    [reflexivity|].
  inversion H as [|? ? Ha Hrest]; subst. cbn [map filter snd] in *.
  rewrite Ha. auto.
Qed.

Lemma count_among (k k' : Action -> bool) (added : list (N * Action)) :
  (forall a, k' a = true -> k a = false) ->
  Forall (fun x => k' (snd x) = true) added -> count k added = 0%nat.
Proof.
  intros Hk H. apply count_none. eapply Forall_impl; [|exact H].
  intros x Hx. now apply Hk.
Qed.

Lemma cancel_is_nothing_else (a : Action) :
  is_cancel a = true ->
  is_terminate a = false /\ is_kill a = false /\ is_error_action a = false
  /\ is_spawn a = false /\ is_signal a = false.
Proof. destruct a; try discriminate; repeat split. Qed.

Lemma signal_is_no_message (a : Action) :
  is_signal a = true -> is_error_action a = false /\ is_spawn a = false.
Proof. destruct a; try discriminate; repeat split. Qed.

Lemma times_count (k : Action -> bool) (c c' : Conn)
    (added : list (N * Action)) :
  log c' = log c ++ added -> times k c' = (times k c + count k added)%nat.
Proof. apply times_extended. Qed.

(** A teardown and a cancel loop together. *)
Lemma teardown_adds (reaped_before : Prop) (sig canc : list (N * Action)) :
  Forall (fun x => is_signal (snd x) = true) sig ->
  Forall (fun x => is_cancel (snd x) = true) canc ->
  (count is_kill sig <= count is_terminate sig <= 1)%nat ->
  (reaped_before -> sig = []) ->
  handler_turn_adds reaped_before (sig ++ canc)
  /\ count is_error_action (sig ++ canc) = 0%nat.
Proof.
  intros Hsig Hcanc Hn Hre.
  assert (Hc : forall k, (forall a, is_cancel a = true -> k a = false) ->
                         count k canc = 0%nat).
  { intros k Hk. now apply count_among with (k' := is_cancel). }
  assert (Hs : forall k, (forall a, is_signal a = true -> k a = false) ->
                         count k sig = 0%nat).
  { intros k Hk. now apply count_among with (k' := is_signal). }
  unfold handler_turn_adds. rewrite !count_app.
  rewrite (Hc is_kill), (Hc is_terminate), (Hc is_error_action),
    (Hc is_spawn), (Hc is_signal), (Hs is_error_action), (Hs is_spawn)
    by (intros a Ha; first [apply cancel_is_nothing_else in Ha
                           | apply signal_is_no_message in Ha]; tauto).
  repeat split; try lia.
  intros H. rewrite (Hre H). reflexivity.
Qed.

Lemma watch_finally_log (s : Session str) :
  exists s' added,
    Watch.finally s = (s', true)
    /\ log (conn s') = log (conn s) ++ added
    /\ main s' = main s
    /\ returncode (proc (conn s')) <> None
    /\ handler_turn_adds (returncode (proc (conn s)) <> None) added
    /\ count is_error_action added = 0%nat.
Proof.
  unfold Watch.finally.
  destruct (watch_cleanup_log (conn s))
    as (c' & sig & -> & Hlog & Hsig & _ & Hrc & Hsame & Hn).
  destruct (cancel_tasks_log (with_conn c' s))
    as (canc & Hlog2 & Hcanc & Hp & Hm).
  exists (Watch.cancel_tasks (with_conn c' s)), (sig ++ canc).
  split; [reflexivity|]. split.
  { rewrite Hlog2. cbn [conn with_conn]. now rewrite Hlog, app_assoc. }
  split; [exact Hm|]. split; [now rewrite Hp|].
  apply teardown_adds; try assumption.
  intros H. specialize (Hsame H). subst c'.
  apply (f_equal (@List.length _)) in Hlog. rewrite length_app in Hlog.
  destruct sig; [reflexivity | cbn in Hlog; lia].
Qed.

Lemma terminal_finally_log (s : Session json) :
  exists s' added,
    Terminal.finally s = (s', true)
    /\ log (conn s') = log (conn s) ++ added
    /\ main s' = main s
    /\ returncode (proc (conn s')) <> None
    /\ handler_turn_adds (returncode (proc (conn s)) <> None) added
    /\ count is_error_action added = 0%nat.
Proof.
  unfold Terminal.finally.
  destruct (terminal_cleanup_log (conn s))
    as (c' & sig & -> & Hlog & Hsig & _ & Hrc & Hsame & Hn).
  destruct (cancel_remaining_log (with_conn c' s))
    as (canc & Hlog2 & Hcanc & Hp & Hm).
  exists (Terminal.cancel_remaining (with_conn c' s)), (sig ++ canc).
  split; [reflexivity|]. split.
  { rewrite Hlog2. cbn [conn with_conn]. now rewrite Hlog, app_assoc. }
  split; [exact Hm|]. split; [now rewrite Hp|].
  apply teardown_adds; try assumption.
  intros H. specialize (Hsame H). subst c'.
  apply (f_equal (@List.length _)) in Hlog. rewrite length_app in Hlog.
  destruct sig; [reflexivity | cbn in Hlog; lia].
Qed.

Lemma nothing_added (reaped_before : Prop) : handler_turn_adds reaped_before [].
Proof. unfold handler_turn_adds, count. cbn. repeat split; lia. Qed.

(** One turn of the watch handler. *)
Lemma watch_step_main_effect (s : Session str) :
  (main s <> Serving -> Watch.step_main s = s)
  /\ (main s = Serving ->
      exists added,
        log (conn (Watch.step_main s)) = log (conn s) ++ added
        /\ main (Watch.step_main s) <> Stuck
        /\ (main (Watch.step_main s) = Serving -> added = [])
        /\ (returncode (proc (conn s)) <> None ->
            returncode (proc (conn (Watch.step_main s))) <> None)
        /\ handler_turn_adds (returncode (proc (conn s)) <> None) added).
Proof.
  unfold Watch.step_main. split.
  - destruct (main s); congruence.
  - intros E. rewrite E. destruct (inbound s) as [|[text| |e] q].
    + exists []. rewrite app_nil_r.
      repeat split; auto; try (rewrite E; discriminate);
        try apply nothing_added.
    + exists []. cbn [conn with_inbound main]. rewrite app_nil_r.
      repeat split; auto; try (rewrite E; discriminate);
        try apply nothing_added.
    + destruct (watch_finally_log
                  (with_conn (mark_peer_gone (conn s)) (with_inbound q s)))
        as (s' & added & -> & Hlog & Hm & Hrc & Hadds & _).
      exists added. cbn [conn with_conn with_main main].
      split; [exact Hlog|]. split; [discriminate|].
      split; [discriminate|]. split; [auto | exact Hadds].
    + destruct (watch_finally_log (with_inbound q s))
        as (s' & added & -> & Hlog & Hm & Hrc & Hadds & Herr).
      cbn [conn with_inbound] in *.
      unfold send_json. destruct (peer_gone (conn s')).
      * exists added. cbn [conn with_conn with_main main].
        split; [exact Hlog|]. split; [discriminate|].
        split; [discriminate|]. split; [auto | exact Hadds].
      * eexists (added ++ [_]). cbn [conn with_conn with_main main emit log].
        rewrite Hlog, <- app_assoc. split; [reflexivity|].
        split; [discriminate|]. split; [discriminate|]. split; [auto|].
        destruct Hadds as (Hk & He & Hs & Hr).
        unfold handler_turn_adds. rewrite !count_app, Herr, Hs.
        repeat split; try (cbn; lia).
        intros H. rewrite (Hr H). reflexivity.
Qed.

(** One turn of the terminal handler: it sends no error message. *)
Lemma terminal_step_main_effect (s : Session json) :
  (main s <> Serving -> Terminal.step_main s = s)
  /\ (main s = Serving ->
      exists added,
        log (conn (Terminal.step_main s)) = log (conn s) ++ added
        /\ main (Terminal.step_main s) <> Stuck
        /\ (main (Terminal.step_main s) = Serving -> added = [])
        /\ (returncode (proc (conn s)) <> None ->
            returncode (proc (conn (Terminal.step_main s))) <> None)
        /\ handler_turn_adds (returncode (proc (conn s)) <> None) added
        /\ count is_error_action added = 0%nat).
Proof.
  unfold Terminal.step_main. split.
  - destruct (main s); congruence.
  - intros E. rewrite E. destruct (existsb _ (tasks s)).
    + destruct (terminal_finally_log s)
        as (s' & added & -> & Hlog & Hm & Hrc & Hadds & Herr).
      exists added. cbn [conn with_conn with_main main].
      split; [exact Hlog|]. split; [discriminate|].
      split; [discriminate|]. split; [auto|]. split; assumption.
    + exists []. rewrite app_nil_r.
      repeat split; auto; try (rewrite E; discriminate);
        try apply nothing_added.
Qed.

Lemma handler_only_kinds :
  by_handler_only is_signal /\ by_handler_only is_terminate
  /\ by_handler_only is_kill /\ by_handler_only is_error_action
  /\ by_handler_only is_spawn.
Proof.
  repeat split; intros a Ha; destruct a as [| | [t d | e] | | | | | | | | |];
    try discriminate; try exact I.
  cbn in Ha. apply str_eqb_eq in Ha. subst t. split; reflexivity.
Qed.

(** A turn of a task or of the process changes none of the handler's
    counts. *)
Lemma watch_task_turn_times (k : Action -> bool) (s : Session str)
    (tn : turn) :
  by_handler_only k -> tn <> Main ->
  times k (conn (Watch.step s tn)) = times k (conn s)
  /\ main (Watch.step s tn) = main s
  /\ (returncode (proc (conn s)) <> None ->
      returncode (proc (conn (Watch.step s tn))) <> None).
Proof.
  intros Hk Hname. destruct tn as [[| |] | | code]; cbn [Watch.step];
    try congruence.
  - destruct (@step_reader_times str k Stdout s (or_introl eq_refl) Hk)
      as (H1 & H2 & H3).
    unfold Watch.handle_stdout. change (lit "stdout") with (tag_of Stdout).
    rewrite H1, H2, H3. auto.
  - destruct (@step_reader_times str k Stderr s (or_intror eq_refl) Hk)
      as (H1 & H2 & H3).
    unfold Watch.handle_stderr. change (lit "stderr") with (tag_of Stderr).
    rewrite H1, H2, H3. auto.
  - auto.
  - destruct (process_exits_times k code s) as (H1 & H2 & _ & H4). auto.
Qed.

Lemma terminal_task_turn_times (k : Action -> bool) (s : Session json)
    (tn : turn) :
  by_handler_only k -> tn <> Main ->
  times k (conn (Terminal.step s tn)) = times k (conn s)
  /\ main (Terminal.step s tn) = main s
  /\ (returncode (proc (conn s)) <> None ->
      returncode (proc (conn (Terminal.step s tn))) <> None).
Proof.
  intros Hk Hname. destruct tn as [[| |] | | code]; cbn [Terminal.step];
    try congruence.
  - destruct (@step_reader_times json k Stdout s (or_introl eq_refl) Hk)
      as (H1 & H2 & H3).
    unfold Terminal.handle_stdout. change (lit "stdout") with (tag_of Stdout).
    rewrite H1, H2, H3. auto.
  - destruct (@step_reader_times json k Stderr s (or_intror eq_refl) Hk)
      as (H1 & H2 & H3).
    unfold Terminal.handle_stderr. change (lit "stderr") with (tag_of Stderr).
    rewrite H1, H2, H3. auto.
  - destruct (handle_websocket_input_times s Hk) as (H1 & H2 & H3).
    rewrite H1, H2, H3. auto.
  - destruct (process_exits_times k code s) as (H1 & H2 & _ & H4). auto.
Qed.

Lemma once_only_after_handler_turn {P} (s s' : Session P)
    (added : list (N * Action)) :
  once_only s -> main s = Serving ->
  log (conn s') = log (conn s) ++ added ->
  main s' <> Stuck ->
  (main s' = Serving -> added = []) ->
  handler_turn_adds (returncode (proc (conn s)) <> None) added ->
  once_only s'
  /\ (returncode (proc (conn s)) <> None ->
      times is_signal (conn s') = 0%nat).
Proof.
  intros (_ & Hserv & _ & _ & Hsp) Hm Hlog Hstuck Hidle
    (Hk & He & Hs & Hr).
  destruct (Hserv Hm) as (Z0 & Z1 & Z2 & Z3).
  unfold once_only.
  rewrite (@times_count is_signal _ _ _ Hlog), (@times_count is_terminate _ _ _ Hlog),
    (@times_count is_kill _ _ _ Hlog), (@times_count is_error_action _ _ _ Hlog),
    (@times_count is_spawn _ _ _ Hlog), Z0, Z1, Z2, Z3, Hsp, Hs.
  split.
  - split; [exact Hstuck|]. split.
    { intros Hs'. rewrite (Hidle Hs'). repeat split. }
    split; [lia|]. split; lia.
  - intros Hre. now rewrite (Hr Hre).
Qed.

Lemma watch_once_only_step (s : Session str) (tn : turn) :
  once_only s -> once_only (Watch.step s tn).
Proof.
  intros H. destruct (turn_eq_dec tn Main) as [-> | Hname].
  - cbn [Watch.step]. destruct (watch_step_main_effect s) as [Hidle Hturn].
    destruct (main s) eqn:Em; try (rewrite Hidle by discriminate; exact H).
    destruct (Hturn eq_refl) as (added & Hlog & Hst & Hi & _ & Hadds).
    apply (@once_only_after_handler_turn _ s (Watch.step_main s) added);
      assumption.
  - destruct H as (H0 & H1 & H2 & H3 & H4).
    destruct handler_only_kinds as (K0 & K1 & K2 & K3 & K4).
    unfold once_only.
    rewrite (proj1 (watch_task_turn_times s K0 Hname)),
      (proj1 (watch_task_turn_times s K1 Hname)),
      (proj1 (watch_task_turn_times s K2 Hname)),
      (proj1 (watch_task_turn_times s K3 Hname)),
      (proj1 (watch_task_turn_times s K4 Hname)),
      (proj1 (proj2 (watch_task_turn_times s K0 Hname))).
    auto.
Qed.

Lemma terminal_once_only_step (s : Session json) (tn : turn) :
  once_only s /\ times is_error_action (conn s) = 0%nat ->
  once_only (Terminal.step s tn)
  /\ times is_error_action (conn (Terminal.step s tn)) = 0%nat.
Proof.
  intros [H He]. destruct (turn_eq_dec tn Main) as [-> | Hname].
  - cbn [Terminal.step].
    destruct (terminal_step_main_effect s) as [Hidle Hturn].
    destruct (main s) eqn:Em;
      try (rewrite Hidle by discriminate; split; assumption).
    destruct (Hturn eq_refl) as (added & Hlog & Hst & Hi & _ & Hadds & Herr).
    split.
    + apply (@once_only_after_handler_turn _ s (Terminal.step_main s) added);
        assumption.
    + rewrite (@times_count is_error_action _ _ _ Hlog). lia.
  - destruct H as (H0 & H1 & H2 & H3 & H4).
    destruct handler_only_kinds as (K0 & K1 & K2 & K3 & K4).
    unfold once_only.
    rewrite (proj1 (terminal_task_turn_times s K0 Hname)),
      (proj1 (terminal_task_turn_times s K1 Hname)),
      (proj1 (terminal_task_turn_times s K2 Hname)),
      (proj1 (terminal_task_turn_times s K3 Hname)),
      (proj1 (terminal_task_turn_times s K4 Hname)),
      (proj1 (proj2 (terminal_task_turn_times s K0 Hname))).
    repeat split; auto; try (apply H2); apply H1; assumption.
Qed.

Lemma watch_once_only_run (sched : list turn) (s : Session str) :
  once_only s -> once_only (Watch.run sched s).
Proof.
  revert s. induction sched as [|tn sched IH]; intros s H; [exact H|].
  cbn [Watch.run fold_left]. apply IH. now apply watch_once_only_step.
Qed.

Lemma terminal_once_only_run (sched : list turn) (s : Session json) :
  once_only s /\ times is_error_action (conn s) = 0%nat ->
  once_only (Terminal.run sched s)
  /\ times is_error_action (conn (Terminal.run sched s)) = 0%nat.
Proof.
  revert s. induction sched as [|tn sched IH]; intros s H; [exact H|].
  cbn [Terminal.run fold_left]. apply IH. now apply terminal_once_only_step.
Qed.

Lemma start_once_only {P} (w : World P) (p : Process) (cmd : list str)
    (cwd : str) (with_stdin : bool) (ts : list task_id) :
  once_only (start w p (Spawn cmd cwd with_stdin) ts)
  /\ times is_error_action
       (conn (start w p (Spawn cmd cwd with_stdin) ts)) = 0%nat.
Proof. unfold once_only. cbn. repeat split; auto; discriminate. Qed.

Lemma occurrences_session {P} (k : Action -> bool) (s : Session P) :
  k Accept = false ->
  occurrences k {| before := [Accept]; session := Some s |}
  = times k (conn s).
Proof.
  intros H. unfold occurrences, actions, times. cbn [before session app].
  cbn [filter]. now rewrite H.
Qed.

(** X8: a teardown happens at most once.  In every run of the watch
    handler and of the terminal handler, on every schedule, the process
    is spawned at most once, SIGTERM is sent at most once, and SIGKILL at
    most once and only when SIGTERM was sent. *)
Theorem X8_teardown_at_most_once (sched : list turn) :
  let once {P} (h : Handled P) :=
    (occurrences is_spawn h <= 1)%nat
    /\ (occurrences is_kill h <= occurrences is_terminate h <= 1)%nat in
  (forall w : World str, once (watch_environments_websocket w sched))
  /\ (forall (environment_id : str) (w : World json),
        once (terminal_websocket environment_id w sched)).
Proof.
  cbv zeta. split.
  - intros w. unfold watch_environments_websocket.
    destruct (spawn w _ _) as [p|e]; [|cbn; lia].
    rewrite !occurrences_session by reflexivity.
    match goal with
    | |- context [Watch.run sched (start w p (Spawn ?cmd ?cwd ?b) ?ts)] =>
        destruct (watch_once_only_run sched
                    (proj1 (start_once_only w p cmd cwd b ts)))
          as (_ & _ & Hk & _ & Hs)
    end.
    lia.
  - intros eid w. unfold terminal_websocket.
    destruct eid as [|ch eid]; [cbn; lia|].
    destruct (spawn w _ _) as [p|e]; [|cbn; lia].
    rewrite !occurrences_session by reflexivity.
    match goal with
    | |- context [Terminal.run sched (start w p (Spawn ?cmd ?cwd ?b) ?ts)] =>
        destruct (terminal_once_only_run sched
                    (start_once_only w p cmd cwd b ts))
          as ((_ & _ & Hk & _ & Hs) & _)
    end.
    lia.
Qed.

(** X9: at most one error message per connection.  In every run of
    either handler the client gets at most one error message, and a
    terminal connection whose process was spawned gets none, whatever
    happens in the session afterwards. *)
Theorem X9_at_most_one_error_message (sched : list turn) :
  (forall w : World str,
     (occurrences is_error_action (watch_environments_websocket w sched)
      <= 1)%nat)
  /\ (forall (environment_id : str) (w : World json),
        (occurrences is_error_action
           (terminal_websocket environment_id w sched) <= 1)%nat
        /\ (session (terminal_websocket environment_id w sched) <> None ->
            occurrences is_error_action
              (terminal_websocket environment_id w sched) = 0%nat)).
Proof.
  split.
  - intros w. unfold watch_environments_websocket.
    destruct (spawn w _ _) as [p|e]; [|cbn; lia].
    rewrite occurrences_session by reflexivity.
    match goal with
    | |- context [Watch.run sched (start w p (Spawn ?cmd ?cwd ?b) ?ts)] =>
        destruct (watch_once_only_run sched
                    (proj1 (start_once_only w p cmd cwd b ts)))
          as (_ & _ & _ & He & _)
    end.
    lia.
  - intros eid w. unfold terminal_websocket.
    destruct eid as [|ch eid]; [split; [cbn; lia | cbn; congruence]|].
    destruct (spawn w _ _) as [p|e]; [|split; [cbn; lia | cbn; congruence]].
    rewrite occurrences_session by reflexivity.
    match goal with
    | |- context [Terminal.run sched (start w p (Spawn ?cmd ?cwd ?b) ?ts)] =>
        destruct (terminal_once_only_run sched
                    (start_once_only w p cmd cwd b ts))
          as (_ & He)
    end.
    split; [lia | intros _; exact He].
Qed.

Lemma X9_at_most_one_error_message_witness :
  occurrences is_error_action
    (terminal_websocket (lit "env-7") (terminal_world [Disconnected])
                        [Run Input; Main]) = 0%nat.
Proof.
  apply (proj2 (X9_at_most_one_error_message [Run Input; Main])
               (lit "env-7") (terminal_world [Disconnected])).
  discriminate.
Defined.

(** ** A process that exited by itself *)

Lemma watch_reaped_step (s : Session str) (tn : turn) :
  reaped_unsignalled s -> reaped_unsignalled (Watch.step s tn).
Proof.
  intros (Ho & Hrc & Hsig).
  split; [now apply watch_once_only_step|].
  destruct (turn_eq_dec tn Main) as [-> | Hname].
  - cbn [Watch.step]. destruct (watch_step_main_effect s) as [Hidle Hturn].
    destruct (main s) eqn:Em;
      try (rewrite Hidle by discriminate; split; assumption).
    destruct (Hturn eq_refl)
      as (added & Hlog & _ & _ & Hkeep & (_ & _ & _ & Hnone)).
    split; [now apply Hkeep|].
    rewrite (@times_count is_signal _ _ _ Hlog), Hsig, (Hnone Hrc).
    reflexivity.
  - destruct handler_only_kinds as (K0 & _).
    destruct (watch_task_turn_times s K0 Hname) as (H1 & _ & H3).
    split; [now apply H3 | now rewrite H1].
Qed.

Lemma terminal_reaped_step (s : Session json) (tn : turn) :
  reaped_unsignalled s /\ times is_error_action (conn s) = 0%nat ->
  reaped_unsignalled (Terminal.step s tn)
  /\ times is_error_action (conn (Terminal.step s tn)) = 0%nat.
Proof.
  intros [(Ho & Hrc & Hsig) He].
  destruct (terminal_once_only_step tn (conj Ho He)) as [Ho' He'].
  split; [|exact He']. split; [exact Ho'|].
  destruct (turn_eq_dec tn Main) as [-> | Hname].
  - cbn [Terminal.step].
    destruct (terminal_step_main_effect s) as [Hidle Hturn].
    destruct (main s) eqn:Em;
      try (rewrite Hidle by discriminate; split; assumption).
    destruct (Hturn eq_refl)
      as (added & Hlog & _ & _ & Hkeep & (_ & _ & _ & Hnone) & _).
    split; [now apply Hkeep|].
    rewrite (@times_count is_signal _ _ _ Hlog), Hsig, (Hnone Hrc).
    reflexivity.
  - destruct handler_only_kinds as (K0 & _).
    destruct (terminal_task_turn_times s K0 Hname) as (H1 & _ & H3).
    split; [now apply H3 | now rewrite H1].
Qed.

Lemma watch_reaped_run (sched : list turn) (s : Session str) :
  reaped_unsignalled s -> reaped_unsignalled (Watch.run sched s).
Proof.
  revert s. induction sched as [|tn sched IH]; intros s H; [exact H|].
  cbn [Watch.run fold_left]. apply IH. now apply watch_reaped_step.
Qed.

Lemma terminal_reaped_run (sched : list turn) (s : Session json) :
  reaped_unsignalled s /\ times is_error_action (conn s) = 0%nat ->
  reaped_unsignalled (Terminal.run sched s)
  /\ times is_error_action (conn (Terminal.run sched s)) = 0%nat.
Proof.
  revert s. induction sched as [|tn sched IH]; intros s H; [exact H|].
  cbn [Terminal.run fold_left]. apply IH. now apply terminal_reaped_step.
Qed.

(** X10: a process that has exited by itself is never signalled.  If, in
    a run of either handler, the process is already reaped while the
    handler is still waiting, then however the run goes on the teardown
    sends it neither SIGTERM nor SIGKILL, and does not close its input
    or wait for it. *)
Theorem X10_reaped_process_is_not_signalled (sched1 sched2 : list turn) :
  (forall (w : World str) (s1 : Session str),
     session (watch_environments_websocket w sched1) = Some s1 ->
     main s1 = Serving -> returncode (proc (conn s1)) <> None ->
     exists s2,
       session (watch_environments_websocket w (sched1 ++ sched2)) = Some s2
       /\ times is_signal (conn s2) = 0%nat)
  /\ (forall (environment_id : str) (w : World json) (s1 : Session json),
        session (terminal_websocket environment_id w sched1) = Some s1 ->
        main s1 = Serving -> returncode (proc (conn s1)) <> None ->
        exists s2,
          session (terminal_websocket environment_id w (sched1 ++ sched2))
          = Some s2
          /\ times is_signal (conn s2) = 0%nat).
Proof.
  split.
  - intros w s1. unfold watch_environments_websocket.
    destruct (spawn w _ _) as [p|e]; [|discriminate].
    cbn [session]. intros [= <-] Hm Hrc.
    eexists. split; [reflexivity|].
    unfold Watch.run at 1. rewrite fold_left_app.
    match goal with
    | |- context [fold_left Watch.step sched1
                    (start w p (Spawn ?cmd ?cwd ?b) ?ts)] =>
        pose proof (watch_once_only_run sched1
                      (proj1 (start_once_only w p cmd cwd b ts))) as Ho
    end.
    apply (watch_reaped_run sched2).
    split; [exact Ho|]. split; [exact Hrc|].
    destruct Ho as (_ & Hs & _). now apply Hs.
  - intros eid w s1. unfold terminal_websocket.
    destruct eid as [|ch eid]; [discriminate|].
    destruct (spawn w _ _) as [p|e]; [|discriminate].
    cbn [session]. intros [= <-] Hm Hrc.
    eexists. split; [reflexivity|].
    unfold Terminal.run at 1. rewrite fold_left_app.
    match goal with
    | |- context [fold_left Terminal.step sched1
                    (start w p (Spawn ?cmd ?cwd ?b) ?ts)] =>
        pose proof (terminal_once_only_run sched1
                      (start_once_only w p cmd cwd b ts)) as [Ho He]
    end.
    apply (terminal_reaped_run sched2).
    split; [|exact He]. split; [exact Ho|]. split; [exact Hrc|].
    destruct Ho as (_ & Hs & _). now apply Hs.
Qed.

Lemma X10_reaped_process_is_not_signalled_witness :
  exists s2,
    session (watch_environments_websocket
               (Build_World default_settings
                  (fun _ _ => Returns (polite_process 20 false))
                  [ReadBytes line1; ReadBytes []] [ReadBytes []]
                  [Disconnected])
               (line_then_exit ++ [Main])) = Some s2
    /\ times is_signal (conn s2) = 0%nat.
Proof.
  eapply (proj1 (X10_reaped_process_is_not_signalled line_then_exit [Main])).
  - reflexivity.
  - reflexivity.
  - discriminate.
Defined.

(** ** After the handler has returned *)

Lemma watch_ended_fixed (s : Session str) (tn : turn) :
  map fst (tasks s) = [Stdout; Stderr] ->
  ended [Stdout; Stderr] s ->
  Watch.step s tn = s.
Proof.
  intros Hts (Hm & Hrc & Hset).
  apply tasks_two in Hts as (a & b & Hts).
  destruct s as [cn so se ib ts m]. cbn [tasks main conn] in *. subst ts m.
  pose proof (Hset Stdout (or_introl eq_refl)) as Ha.
  pose proof (Hset Stderr (or_intror (or_introl eq_refl))) as Hb.
  unfold settled, status in Ha, Hb. cbn in Ha, Hb.
  destruct tn as [[| |] | | code]; cbn; try reflexivity.
  - unfold Watch.handle_stdout, step_reader. cbn.
    destruct a; try reflexivity. destruct Ha as [Ha | [Ha _]]; discriminate.
  - unfold Watch.handle_stderr, step_reader. cbn.
    destruct b; try reflexivity. destruct Hb as [Hb | [Hb _]]; discriminate.
  - unfold process_exits. cbn.
    destruct (returncode (proc cn)); [reflexivity | congruence].
Qed.

Lemma watch_ended_run (sched : list turn) (s : Session str) :
  map fst (tasks s) = [Stdout; Stderr] ->
  ended [Stdout; Stderr] s ->
  Watch.run sched s = s.
Proof.
  intros Hts Hend. induction sched as [|tn sched IH]; [reflexivity|].
  cbn [Watch.run fold_left].
  rewrite watch_ended_fixed by assumption. exact IH.
Qed.

Lemma watch_task_turn (s : Session str) (tn : turn) :
  tn <> Main ->
  map fst (tasks s) = [Stdout; Stderr] ->
  serving s ->
  map fst (tasks (Watch.step s tn)) = [Stdout; Stderr]
  /\ serving (Watch.step s tn).
Proof.
  intros Hname Hts [Hm Hnc].
  apply tasks_two in Hts as (a & b & Hts).
  destruct s as [cn so se ib ts m]. cbn [tasks main conn] in *. subst ts m.
  pose proof (Hnc Stdout) as Ha. pose proof (Hnc Stderr) as Hb.
  unfold status in Ha, Hb. cbn in Ha, Hb.
  unfold serving.
  destruct tn as [[| |] | | code]; [| | |congruence|]; cbn [Watch.step].
  - unfold Watch.handle_stdout, step_reader. cbn.
    destruct a; try congruence;
      [destruct so as [|ans q]; cbn; [|split_iteration]|];
      cbn; (split; [reflexivity|]); (split; [reflexivity|]);
      intros [| |]; cbn; congruence.
  - unfold Watch.handle_stderr, step_reader. cbn.
    destruct b; try congruence;
      [destruct se as [|ans q]; cbn; [|split_iteration]|];
      cbn; (split; [reflexivity|]); (split; [reflexivity|]);
      intros [| |]; cbn; congruence.
  - split; [reflexivity|]. split; [reflexivity | exact Hnc].
  - unfold process_exits. cbn.
    destruct (returncode (proc cn)); cbn;
      (split; [reflexivity|]); (split; [reflexivity|]);
      intros [| |]; cbn; congruence.
Qed.

Lemma ended_after_send {P} (ts : list task_id) (m : Message)
    (s : Session P) :
  ended ts s -> ended ts (with_conn (fst (send_json m (conn s))) s).
Proof.
  intros (Hm & Hrc & Hset). unfold send_json.
  destruct (peer_gone (conn s)); cbn [fst].
  - destruct s; exact (conj Hm (conj Hrc Hset)).
  - split; [exact Hm|]. split; [exact Hrc|].
    intros t Ht. destruct (Hset t Ht) as [Hf | (Hc & Hl1 & Hl2)].
    + left. exact Hf.
    + right. split; [exact Hc|]. unfold logged in *.
      cbn [conn with_conn]. rewrite !in_emit. auto.
Qed.

Lemma set_status_ids (t : task_id) (st : task_status)
    (ts : list (task_id * task_status)) :
  map fst (set_status t st ts) = map fst ts.
Proof.
  unfold set_status. rewrite map_map. apply map_ext.
  intros [x sx]. cbn. now destruct (task_eqb x t).
Qed.

Lemma cancel_and_await_ids {P} (s : Session P) (t : task_id) :
  map fst (tasks (cancel_and_await s t)) = map fst (tasks s).
Proof.
  unfold cancel_and_await.
  destruct (status _ t) as [[| |]|]; cbn [tasks with_conn with_tasks];
    try reflexivity.
  apply set_status_ids.
Qed.

Lemma cancel_loop_ids {P} (l : list task_id) (s : Session P) :
  map fst (tasks (fold_left cancel_and_await l s)) = map fst (tasks s).
Proof.
  revert s. induction l as [|t l IH]; intros s; [reflexivity|].
  cbn [fold_left]. now rewrite IH, cancel_and_await_ids.
Qed.

Lemma watch_finally_ids (s : Session str) :
  map fst (tasks (fst (Watch.finally s))) = map fst (tasks s).
Proof.
  unfold Watch.finally. destruct (Watch.cleanup (conn s)) as [c' [|]];
    cbn [fst]; [|reflexivity].
  unfold Watch.cancel_tasks. now rewrite cancel_loop_ids.
Qed.

Lemma watch_main_turn (s : Session str) :
  map fst (tasks s) = [Stdout; Stderr] ->
  serving s ->
  map fst (tasks (Watch.step_main s)) = [Stdout; Stderr]
  /\ (serving (Watch.step_main s)
      \/ ended [Stdout; Stderr] (Watch.step_main s)).
Proof.
  intros Hts [Hm Hnc]. unfold Watch.step_main. rewrite Hm.
  destruct (inbound s) as [|[text| |e] q] eqn:Ein.
  - split; [exact Hts|]. left. now split.
  - split; [exact Hts|]. left. now split.
  - pose proof (watch_finally_ids
                  (with_conn (mark_peer_gone (conn s)) (with_inbound q s)))
      as Hids.
    destruct (@watch_finally_ends
                (with_conn (mark_peer_gone (conn s)) (with_inbound q s)))
      as (s' & E & Hend); [exact Hts | exact Hnc|].
    rewrite E in Hids |- *. cbn [fst] in Hids.
    split; [|right; exact Hend].
    cbn [tasks with_main]. rewrite Hids. exact Hts.
  - pose proof (watch_finally_ids (with_inbound q s)) as Hids.
    destruct (@watch_finally_ends (with_inbound q s))
      as (s' & E & Hend); [exact Hts | exact Hnc|].
    rewrite E in Hids |- *. cbn [fst] in Hids.
    pose proof (ended_after_send
                  (Tagged (lit "error") (lit "WebSocket error: " ++ exn_str e))
                  Hend) as Hend'.
    cbn [conn with_main] in Hend'.
    destruct (send_json _ (conn s')) as [c2 ok]. cbn [fst] in Hend'.
    split; [|right; exact Hend'].
    cbn [tasks with_main with_conn]. rewrite Hids. exact Hts.
Qed.

Lemma watch_run_inv (sched : list turn) (s : Session str) :
  session_inv [Stdout; Stderr] s ->
  session_inv [Stdout; Stderr] (Watch.run sched s).
Proof.
  revert s. induction sched as [|tn sched IH]; intros s Hinv; [exact Hinv|].
  cbn [Watch.run fold_left]. apply IH.
  destruct Hinv as [Hts [Hserv | Hend]].
  - destruct (turn_eq_dec tn Main) as [-> | Hname].
    + exact (watch_main_turn Hts Hserv).
    + destruct (watch_task_turn Hname Hts Hserv) as [Hts2 Hserv2].
      split; [exact Hts2 | left; exact Hserv2].
  - rewrite watch_ended_fixed by assumption.
    split; [exact Hts | right; exact Hend].
Qed.

Lemma returned_is_ended {P} (ts : list task_id) (s : Session P) :
  session_inv ts s -> main s = Returned -> ended ts s.
Proof.
  intros [_ [[Hm _] | Hend]] H; [congruence | exact Hend].
Qed.

(** X11: a returned handler leaves nothing running.  Once the watch
    handler or the terminal handler has returned, no later turn of a
    reader, of the relay, of the handler or of the process changes the
    session: nothing more is sent to the client, written to the process
    or signalled. *)
Theorem X11_nothing_after_return (sched1 sched2 : list turn) :
  (forall (w : World str) (s1 : Session str),
     session (watch_environments_websocket w sched1) = Some s1 ->
     main s1 = Returned ->
     session (watch_environments_websocket w (sched1 ++ sched2)) = Some s1)
  /\ (forall (environment_id : str) (w : World json) (s1 : Session json),
        session (terminal_websocket environment_id w sched1) = Some s1 ->
        main s1 = Returned ->
        session (terminal_websocket environment_id w (sched1 ++ sched2))
        = Some s1).
Proof.
  split.
  - intros w s1. unfold watch_environments_websocket.
    destruct (spawn w _ _) as [p|e]; [|discriminate].
    cbn [session]. intros [= <-] Hm. f_equal.
    unfold Watch.run at 1. rewrite fold_left_app.
    match goal with
    | |- fold_left Watch.step sched2 ?s1 = _ =>
        assert (Hinv : session_inv [Stdout; Stderr] s1)
    end.
    { apply watch_run_inv. split; [reflexivity|]. left.
      split; [reflexivity|]. intros [| |]; discriminate. }
    apply watch_ended_run; [apply Hinv|].
    now apply returned_is_ended.
  - intros eid w s1. unfold terminal_websocket.
    destruct eid as [|ch eid]; [discriminate|].
    destruct (spawn w _ _) as [p|e]; [|discriminate].
    cbn [session]. intros [= <-] Hm. f_equal.
    unfold Terminal.run at 1. rewrite fold_left_app.
    match goal with
    | |- fold_left Terminal.step sched2 ?s1 = _ =>
        assert (Hinv : session_inv [Stdout; Stderr; Input] s1)
    end.
    { apply terminal_run_inv. split; [reflexivity|]. left.
      split; [reflexivity|]. intros [| |]; discriminate. }
    apply terminal_ended_run; [apply Hinv|].
    now apply returned_is_ended.
Qed.

Lemma X11_nothing_after_return_witness :
  session (terminal_websocket (lit "env-7") (terminal_world [Disconnected])
             ([Run Input; Main] ++ [Run Stdout; Main; ProcessExits 0]))
  = session (terminal_websocket (lit "env-7") (terminal_world [Disconnected])
               [Run Input; Main]).
Proof.
  apply (proj2 (X11_nothing_after_return [Run Input; Main]
                  [Run Stdout; Main; ProcessExits 0])
               (lit "env-7") (terminal_world [Disconnected])).
  - reflexivity.
  - reflexivity.
Defined.

(** ** How long a teardown takes *)

Lemma watch_cleanup_time (c : Conn) :
  returncode (proc c) = None ->
  (clock c <= clock (fst (Watch.cleanup c))
   <= clock c + 5000 + on_sigkill (proc c))%N.
Proof.
  intros H. unfold Watch.cleanup. rewrite H.
  unfold terminate, wait_for_exit, kill, wait.
  cbn [emit proc clock log peer_gone].
  destruct (exiting (proc c)) as [[d code]|] eqn:Hex;
    [|destruct (on_sigterm (proc c)) as [[d code]|] eqn:Hterm];
    conn_simpl; rewrite ?H, ?Hex; conn_simpl;
    try (destruct (N.ltb_spec d 5000);
         [|conn_simpl; destruct (N.leb_spec (d - 5000) (on_sigkill (proc c)))]);
    conn_simpl; rewrite ?H; conn_simpl; cbn [fst]; conn_simpl; lia.
Qed.

(** X12: the teardown is bounded in time.  With the process still
    running, the teardown of either handler returns no later than 5
    seconds plus the time the kernel takes to end a process after
    SIGKILL; with the process already reaped it takes no time. *)
Theorem X12_teardown_is_bounded (c : Conn) :
  (returncode (proc c) = None ->
   (clock (fst (Watch.cleanup c))
    <= clock c + 5000 + on_sigkill (proc c))%N
   /\ (clock (fst (Terminal.cleanup c))
       <= clock c + 5000 + on_sigkill (proc c))%N)
  /\ (returncode (proc c) <> None ->
      Watch.cleanup c = (c, true) /\ Terminal.cleanup c = (c, true)).
Proof.
  split.
  - intros H. split; [apply (watch_cleanup_time c H)|].
    rewrite terminal_cleanup_as_watch by exact H.
    destruct (has_stdin (proc c)).
    + exact (proj2 (watch_cleanup_time (emit CloseStdin c) H)).
    + apply (watch_cleanup_time c H).
  - intros H. unfold Watch.cleanup, Terminal.cleanup.
    destruct (returncode (proc c)); [split; reflexivity | congruence].
Qed.

Lemma X12_teardown_is_bounded_witness :
  (clock (fst (Terminal.cleanup
                 (conn (start (terminal_world []) (stubborn_process true)
                              Accept []))))
   <= 0 + 5000 + 3)%N.
Proof.
  apply (proj1 (X12_teardown_is_bounded
                  (conn (start (terminal_world []) (stubborn_process true)
                               Accept [])))).
  reflexivity.
Defined.

(** ** What the relay writes *)

Lemma utf8_encode_char_nonempty (c : N) (bs : list N) :
  utf8_encode_char c = Some bs -> bs <> [].
Proof.
  unfold utf8_encode_char.
  destruct (c <? 128)%N; [intros [= <-]; discriminate|].
  destruct (c <? 2048)%N; [intros [= <-]; discriminate|].
  destruct (c <? 65536)%N.
  - destruct (between 55296 57343 c); [discriminate|].
    intros E. apply some_eq in E. subst bs. discriminate.
  - destruct (c <? 1114112)%N; [|discriminate].
    intros E. apply some_eq in E. subst bs. discriminate.
Qed.

Lemma encode_nonempty (text : str) (b : bytes) :
  text <> [] -> encode text = Some b -> b <> [].
Proof.
  intros Hne. unfold encode. destruct text as [|c text]; [congruence|].
  cbn [utf8_encode].
  destruct (utf8_encode_char c) as [cb|] eqn:Ec; [|discriminate].
  destruct (utf8_encode text) as [rest|]; [|discriminate].
  cbn [option_map]. intros E. apply some_eq in E. subst b.
  apply utf8_encode_char_nonempty in Ec.
  destruct cb; [congruence | discriminate].
Qed.

(** The relay's edge cases.  For a message tagged as a stdin
    command: a string payload is written to the process's input once, as
    its UTF-8 bytes, and the relay goes on exactly when the pipe is not
    broken; a missing payload writes the empty byte string; a payload
    that is not a string, or a string that does not encode, writes
    nothing and ends the relay. *)
Lemma input_iteration_stdin_cases (fields : list (str * json)) (c : Conn) :
  tagged_stdin fields = true ->
  let turn := input_iteration (Received (JObject fields)) c in
  match dict_get fields (lit "data") with
  | None =>
      turn = (emit (WriteStdin []) c, negb (stdin_broken (proc c)))
  | Some (JString text) =>
      match encode text with
      | Some b => turn = (emit (WriteStdin b) c, negb (stdin_broken (proc c)))
      | None => turn = (c, false)
      end
  | Some _ => turn = (c, false)
  end.
Proof.
  intros Htag. cbv zeta. unfold input_iteration. rewrite Htag.
  destruct (dict_get fields (lit "data")) as [[| | |text| |]|];
    try reflexivity.
  destruct (encode text); reflexivity.
Qed.

(** X13: an echo comes back unchanged.  In a terminal session with both
    tasks running, the peer connected and the pipe intact, a stdin
    command with a non-empty payload is written to the process as its
    UTF-8 bytes, and when the process gives those bytes back in one read
    of stdout, the client gets one stdout message carrying exactly the
    payload. *)
Theorem X13_echo_round_trip (s : Session json) (text : str) (b : bytes)
    (q : list (recv_result json)) (qs : list read_result) :
  status s Input = Some Running ->
  status s Stdout = Some Running ->
  peer_gone (conn s) = false ->
  stdin_broken (proc (conn s)) = false ->
  text <> [] ->
  encode text = Some b ->
  inbound s = Received (stdin_message text) :: q ->
  stdout_reads s = ReadBytes b :: qs ->
  let s' := Terminal.run [Run Input; Run Stdout] s in
  log (conn s')
  = log (conn s) ++ [(clock (conn s), WriteStdin b);
                     (clock (conn s), SendJson (Tagged (lit "stdout") text))]
  /\ tasks s' = tasks s /\ inbound s' = q /\ stdout_reads s' = qs.
Proof.
  intros Hin Hout Hpeer Hpipe Hne Henc Hq Hqs. cbv zeta.
  pose proof (encode_nonempty Hne Henc) as Hb.
  pose proof (decode_encode _ Henc) as Hdec.
  destruct s as [c so se ib ts m].
  cbn [conn inbound stdout_reads tasks] in *. subst ib so.
  unfold status in Hin, Hout. cbn [tasks] in Hin, Hout.
  cbn [Terminal.run fold_left Terminal.step].
  unfold handle_websocket_input, status. cbn [tasks inbound conn].
  rewrite Hin.
  assert (Hit : input_iteration (Received (stdin_message text)) c
                = (emit (WriteStdin b) c, true)).
  { unfold input_iteration, stdin_message.
    change (tagged_stdin _) with true. cbv iota.
    change (dict_get _ (lit "data")) with (Some (JString text)). cbv iota.
    rewrite Henc. cbn [emit proc]. now rewrite Hpipe. }
  rewrite Hit. cbn [with_conn with_inbound conn stdout_reads stderr_reads
                    inbound tasks main].
  unfold Terminal.handle_stdout, step_reader, status.
  cbn [tasks reads_of stdout_reads conn with_conn with_inbound].
  rewrite Hout.
  rewrite (@reader_iteration_decoded (lit "stdout") b text _ Hb Hdec).
  unfold send_json. cbn [emit peer_gone]. rewrite Hpeer.
  cbn [with_conn with_reads task_eqb conn stdout_reads stderr_reads
       inbound tasks main emit log clock].
  rewrite <- app_assoc. repeat split.
Qed.

Lemma X13_echo_round_trip_witness :
  let s := with_reads Stdout [ReadBytes (ascii_bytes "ls")]
             (with_inbound [Received (stdin_message (lit "ls"))]
                           fresh_terminal) in
  log (conn (Terminal.run [Run Input; Run Stdout] s))
  = log (conn s) ++ [(0%N, WriteStdin (ascii_bytes "ls"));
                     (0%N, SendJson (Tagged (lit "stdout") (lit "ls")))].
Proof.
  cbv zeta.
  apply (@X13_echo_round_trip
           (with_reads Stdout [ReadBytes (ascii_bytes "ls")]
              (with_inbound [Received (stdin_message (lit "ls"))]
                            fresh_terminal))
           (lit "ls") (ascii_bytes "ls") [] []);
    try reflexivity.
  discriminate.
Defined.

(** ** [parse_cors] and [all_cors_origins] *)

Lemma split_on_length (sep : N) (s cur : str) :
  List.length (split_on sep cur s) = S (count_occ N.eq_dec s sep).
Proof.
  revert cur. induction s as [|c s IH]; intros cur; [reflexivity|].
  cbn [split_on count_occ].
  destruct (N.eqb_spec c sep) as [-> | Hne].
  - destruct (N.eq_dec sep sep); [|congruence]. cbn. now rewrite IH.
  - destruct (N.eq_dec c sep); [congruence|]. apply IH.
Qed.

(** X14: a comma-separated origin string parses to its origins.  For a
    non-empty list of texts without commas and without whitespace at
    either end whose joined string does not start with "[", [parse_cors]
    of the string joined with commas is exactly that list. *)
Theorem X14_parse_cors_reads_back (items : list str) :
  items <> [] ->
  Forall (fun i => trimmed i = true /\ existsb (N.eqb 44) i = false) items ->
  startswith (join [44%N] items) (lit "[") = false ->
  parse_cors (PStr (join [44%N] items)) = Returns (PList (map PStr items)).
Proof.
  intros Hne Hitems Hstart. unfold parse_cors. rewrite Hstart. cbn [negb].
  rewrite split_on_join; [|exact Hne|].
  - do 2 f_equal. rewrite <- map_map with (f := strip) (g := PStr).
    f_equal. rewrite <- (map_id items) at 2. apply map_ext_Forall.
    eapply Forall_impl; [|exact Hitems].
    intros i [Hi _]. now apply trimmed_strip_id.
  - eapply Forall_impl; [|exact Hitems]. cbn. tauto.
Qed.

Lemma X14_parse_cors_reads_back_witness :
  parse_cors (PStr (join [44%N] [lit "http://localhost:5173";
                                 lit "https://example.org"]))
  = Returns (PList [PStr (lit "http://localhost:5173");
                    PStr (lit "https://example.org")]).
Proof.
  apply (@X14_parse_cors_reads_back [lit "http://localhost:5173";
                                     lit "https://example.org"]).
  - discriminate.
  - repeat constructor.
  - reflexivity.
Defined.

(** X15: what [parse_cors] accepts.  A string that does not start with
    "[" becomes a list with one more item than it has commas, each item a
    string without whitespace at either end; a string that starts with
    "[" and a list come back unchanged; anything else raises
    [ValueError]. *)
Theorem X15_parse_cors_cases (v : pyval) :
  match v with
  | PStr s =>
      if startswith s (lit "[") then parse_cors v = Returns v
      else exists items,
             parse_cors v = Returns (PList (map PStr items))
             /\ List.length items = S (count_occ N.eq_dec s 44%N)
             /\ Forall (fun i => trimmed i = true) items
  | PList _ => parse_cors v = Returns v
  | POther => parse_cors v = Raises v
  end.
Proof.
  destruct v as [s| |]; try reflexivity. unfold parse_cors.
  destruct (startswith s (lit "[")); [reflexivity|]. cbn [negb].
  exists (map strip (split_on 44%N [] s)). repeat split.
  - now rewrite map_map.
  - now rewrite length_map, split_on_length.
  - apply Forall_map, Forall_forall. intros i _. apply strip_trimmed.
Qed.

Lemma drop_leading_head (ch : N) (s : str) :
  match drop_leading ch s with
  | c :: _ => c <> ch
  | [] => True
  end.
Proof.
  induction s as [|c s IH]; [exact I|]. cbn.
  destruct (N.eqb_spec c ch); [exact IH | assumption].
Qed.

Lemma drop_leading_suffix (ch : N) (s : str) :
  exists n, s = repeat ch n ++ drop_leading ch s.
Proof.
  induction s as [|c s [n IH]]; [now exists 0%nat|]. cbn.
  destruct (N.eqb_spec c ch) as [-> | Hne].
  - exists (S n). cbn. now rewrite <- IH.
  - now exists 0%nat.
Qed.

Lemma rstrip_char_spec (ch : N) (s : str) :
  (exists n, s = rstrip_char ch s ++ repeat ch n)
  /\ match rev (rstrip_char ch s) with
     | c :: _ => c <> ch
     | [] => True
     end.
Proof.
  unfold rstrip_char. rewrite rev_involutive. split.
  - destruct (drop_leading_suffix ch (rev s)) as [n Hn]. exists n.
    rewrite <- (rev_involutive s), Hn at 1.
    rewrite rev_app_distr. f_equal.
    now rewrite rev_repeat.
  - apply drop_leading_head.
Qed.

(** X16: the CORS origins.  [all_cors_origins] lists every backend
    origin with all its trailing slashes removed and nothing else
    changed, in order, followed by the frontend host exactly as it is
    configured. *)
Theorem X16_all_cors_origins (backend : list str) (frontend : str) :
  exists cleaned,
    all_cors_origins backend frontend = cleaned ++ [frontend]
    /\ Forall2 (fun origin o =>
                  (exists n, origin = o ++ repeat 47%N n)
                  /\ match rev o with
                     | c :: _ => c <> 47%N
                     | [] => True
                     end)
               backend cleaned.
Proof.
  exists (map (rstrip_char 47%N) backend). split; [reflexivity|].
  induction backend as [|b backend IH]; constructor; [|exact IH].
  apply rstrip_char_spec.
Qed.

(** ** The process's input pipe *)

Lemma reader_iteration_sends_only (k : Action -> bool) (tag : str)
    (a : read_result) (c : Conn) :
  (forall m, k (SendJson m) = false) ->
  times k (fst (reader_iteration tag a c)) = times k c.
Proof.
  intros Hk. unfold reader_iteration.
  destruct a as [[|b d]|e]; try reflexivity.
  destruct (decode (b :: d)) as [text|]; [|reflexivity].
  unfold send_json. destruct (peer_gone c); [reflexivity|].
  cbn [fst]. rewrite times_emit, Hk. lia.
Qed.

Lemma step_reader_sends_only {P} (k : Action -> bool) (t : task_id)
    (tag : str) (s : Session P) :
  (forall m, k (SendJson m) = false) ->
  times k (conn (step_reader t tag s)) = times k (conn s).
Proof.
  intros Hk. unfold step_reader.
  destruct (status s t) as [[| |]|]; try reflexivity.
  destruct (reads_of t s) as [|a q]; [reflexivity|].
  pose proof (@reader_iteration_sends_only k tag a (conn s) Hk) as H.
  destruct (reader_iteration tag a (conn s)) as [c' [|]]; exact H.
Qed.

Lemma watch_cleanup_leaves_stdin (c : Conn) :
  times touches_stdin (fst (Watch.cleanup c)) = times touches_stdin c.
Proof.
  destruct (returncode (proc c)) as [code|] eqn:H.
  - unfold Watch.cleanup. now rewrite H.
  - destruct (watch_cleanup_reaps c H) as (c' & -> & _ & _ & Hlog & _).
    cbn [fst]. rewrite (@times_extended touches_stdin _ _ _ Hlog).
    destruct (exits_within 5000 (proc c)); cbn; lia.
Qed.

Lemma watch_finally_leaves_stdin (s : Session str) :
  times touches_stdin (conn (fst (Watch.finally s)))
  = times touches_stdin (conn s).
Proof.
  unfold Watch.finally.
  pose proof (watch_cleanup_leaves_stdin (conn s)) as Hc.
  destruct (Watch.cleanup (conn s)) as [c' [|]]; cbn [fst] in *;
    [|exact Hc].
  destruct (cancel_tasks_log (with_conn c' s)) as (canc & Hlog & Hcanc & _).
  rewrite (@times_count touches_stdin _ _ _ Hlog).
  rewrite (@count_among touches_stdin is_cancel canc); [|
    intros a Ha; destruct a; try discriminate; reflexivity | exact Hcanc].
  cbn [conn with_conn]. lia.
Qed.

Lemma watch_step_leaves_stdin (s : Session str) (tn : turn) :
  times touches_stdin (conn (Watch.step s tn)) = times touches_stdin (conn s).
Proof.
  destruct tn as [[| |] | | code]; cbn [Watch.step]; try reflexivity.
  - apply step_reader_sends_only. reflexivity.
  - apply step_reader_sends_only. reflexivity.
  - unfold Watch.step_main. destruct (main s); try reflexivity.
    destruct (inbound s) as [|[text| |e] q]; try reflexivity.
    + pose proof (watch_finally_leaves_stdin
                    (with_conn (mark_peer_gone (conn s)) (with_inbound q s)))
        as H.
      destruct (Watch.finally _) as [s' [|]]; exact H.
    + pose proof (watch_finally_leaves_stdin (with_inbound q s)) as H.
      destruct (Watch.finally _) as [s' [|]]; cbn [fst] in H; [|exact H].
      unfold send_json. destruct (peer_gone (conn s')); [exact H|].
      cbn [conn with_conn with_main]. rewrite times_emit. cbn.
      cbn [conn with_inbound] in H. lia.
  - apply (process_exits_times touches_stdin code s).
Qed.

(** X17: the watch channel is read-only.  In every run of the watch
    handler, whatever the peer sends and however the run is scheduled,
    nothing is written to the process's input and its input pipe is
    never closed by the handler. *)
Theorem X17_watch_never_touches_stdin (w : World str) (sched : list turn) :
  occurrences touches_stdin (watch_environments_websocket w sched) = 0%nat.
Proof.
  unfold watch_environments_websocket.
  destruct (spawn w _ _) as [p|e]; [|reflexivity].
  rewrite occurrences_session by reflexivity.
  unfold Watch.run.
  match goal with
  | |- times _ (conn (fold_left _ _ ?s0)) = _ =>
      assert (H0 : times touches_stdin (conn s0) = 0%nat) by reflexivity;
      revert H0; generalize s0
  end.
  induction sched as [|tn sched IH]; intros s H; [exact H|].
  cbn [fold_left]. apply IH. now rewrite watch_step_leaves_stdin.
Qed.
